(** * The job lifecycle controller of law-frontend/src/App.jsx

    The source file holds two variants of the [App] component: the
    simulated driver (timer-based progress, no network) and the live driver
    (job API, presigned upload, status polling).  Both are embedded here as
    event-driven state machines over the React state, the refs and the
    browser's timer table; the part of each component that only renders is
    left out.

    Strings are byte strings.  Every pattern of the source is ASCII, and in
    UTF-8 a byte below 128 never occurs inside the encoding of another
    character, so matching on bytes agrees with matching on the UTF-16 code
    units the browser sees. *)

From Stdlib Require Import ZArith Ascii String DecimalString.
From stdpp Require Import gmap strings list.

(* ===================================================================== *)
(** * Part I: definitions                                                 *)
(* ===================================================================== *)

(** ** Regular expressions, as far as the source uses them *)

Module Regex.

(** The fragment of the pattern language that occurs in the source:
    literal characters, sequence, alternation, [?] and the anchor [$]. *)
Inductive regex : Type :=
| Chr (c : ascii)
| Seq (r1 r2 : regex)
| Alt (r1 r2 : regex)
| Opt (r : regex)
| Eos.

(** Canonicalize of the [i] flag (without [u]): a character is compared
    through its upper-case form, and nothing outside ASCII is ever mapped
    into ASCII. *)
Definition canonicalize (c : ascii) : ascii :=
  let n := N_of_ascii c in
  if ((97 <=? n) && (n <=? 122))%N then ascii_of_N (n - 32) else c.

Definition eq_ci (c x : ascii) : bool :=
  Ascii.eqb (canonicalize c) (canonicalize x).

(** Backtracking matcher in continuation-passing style: [rmatch r s k]
    holds when [r] matches a prefix of [s] and [k] accepts the rest. *)
Fixpoint rmatch (r : regex) (s : string) (k : string -> bool) : bool :=
  match r with
  | Chr c => match s with
             | String x s' => eq_ci c x && k s'
             | EmptyString => false
             end
  | Seq r1 r2 => rmatch r1 s (fun s' => rmatch r2 s' k)
  | Alt r1 r2 => rmatch r1 s k || rmatch r2 s k
  | Opt r1 => rmatch r1 s k || k s
  | Eos => match s with
           | EmptyString => k s
           | String _ _ => false
           end
  end.

(** [RegExp.prototype.test]: is there a match starting at some index? *)
Fixpoint test (r : regex) (s : string) : bool :=
  rmatch r s (fun _ => true) ||
  match s with
  | EmptyString => false
  | String _ s' => test r s'
  end.

End Regex.

(** ** Files and the validator *)

Module File.
Record t : Type := { name : string; size : N; type : string }.
End File.

(** [/\.(html?|xml)$/i] *)
Definition re_allowed : Regex.regex :=
  Regex.Seq (Regex.Chr ".")
    (Regex.Seq
       (Regex.Alt
          (Regex.Seq (Regex.Chr "h") (Regex.Seq (Regex.Chr "t")
             (Regex.Seq (Regex.Chr "m") (Regex.Opt (Regex.Chr "l")))))
          (Regex.Seq (Regex.Chr "x") (Regex.Seq (Regex.Chr "m") (Regex.Chr "l"))))
       Regex.Eos).

(** [/\.(xml)$/i] *)
Definition re_xml : Regex.regex :=
  Regex.Seq (Regex.Chr ".")
    (Regex.Seq
       (Regex.Seq (Regex.Chr "x") (Regex.Seq (Regex.Chr "m") (Regex.Chr "l")))
       Regex.Eos).

(** [const isAllowed = (f) => !!f && /\.(html?|xml)$/i.test(f.name)];
    [f] is [undefined] when the file list is empty. *)
Definition isAllowed (f : option File.t) : bool :=
  match f with
  | None => false
  | Some f => Regex.test re_allowed (File.name f)
  end.

Definition msg_only_html_xml : string := "Only .html or .xml files are accepted.".
Definition msg_please_select : string := "Please select a .html or .xml file.".
Definition msg_unexpected : string := "Unexpected error".

(** JavaScript truthiness of a possibly absent string. *)
Definition truthy (o : option string) : bool :=
  match o with
  | Some (String _ _) => true
  | _ => false
  end.

(** [e.message || 'Unexpected error'] *)
Definition message_or_default (m : string) : string :=
  match m with
  | EmptyString => msg_unexpected
  | _ => m
  end.

(** The three risk profiles of [PROFILES]; [riskKey] is the [key] member. *)
Inductive Risk : Type := SAFE | MEDIUM | RISKY.

Definition riskKey (r : Risk) : string :=
  match r with
  | SAFE => "SAFE"
  | MEDIUM => "MEDIUM"
  | RISKY => "RISKY"
  end.

(** A value interpolated into a template literal; an absent member reads
    [undefined]. *)
Definition js_str (o : option string) : string :=
  match o with
  | Some s => s
  | None => "undefined"
  end.

Definition decimal (n : nat) : string := NilZero.string_of_uint (Nat.to_uint n).

(** [Response.ok] *)
Definition http_ok (code : nat) : bool := (200 <=? code) && (code <=? 299).

(** ** The live driver (second [App] of the source)

    The state is the React state of the component, the ref [pollRef], and
    what the browser holds for it: the table of armed timers, the promises
    it awaits, and the requests it has sent.  An [async] function runs up
    to its next [await]; the activation is then kept in [awaiting] until
    the event loop settles the promise.  The effect that fetches the
    result once [resultUrl] is set writes [resultData] only and is left
    out, as is the cleanup on unmount. *)

Module Live.

(** Requests the component sends with [fetch], in the order of [start]. *)
Inductive Request : Type :=
| PostJobs (risk_profile content_type filename : string)
| PutUpload (url content_type : string) (body : File.t)
| PostStart (job_id : string)
| GetJob (job_id : string).

(** A JSON object of a response body, by the four members the code
    reads; [None] is an absent member.  Bodies that parse to something
    other than an object are not modelled, except that [null] makes the
    reader throw like a body that does not parse. *)
Record Json : Type := {
  job_id : option string;
  upload_url : option string;
  j_status : option string;
  result_url : option string
}.

(** How an awaited promise settles: [fetch] rejects or resolves to a
    response with a status code, [json()] rejects or resolves to the parsed
    body, [text()] rejects or resolves to the body text. *)
Inductive Settled : Type :=
| Rejected (message : string)
| Response (code : nat)
| Parsed (d : Json)
| Text (t : string).

(** Who called [getJob]: [beginPolling] itself, or the interval callback. *)
Inductive Caller : Type := FromBegin | FromTick.

(** The [await] at which an activation of [start] or [getJob] is suspended,
    with the local variables it still needs. *)
Inductive Await : Type :=
| AwCreate (contentType : string) (f : File.t)
| AwCreateJson (contentType : string) (f : File.t)
| AwUpload (jid : option string)
| AwUploadText (code : nat)
| AwStart (jid : option string)
| AwGet (c : Caller) (id : option string)
| AwGetJson (c : Caller) (id : option string).

(** What a timer of the browser runs when it fires. *)
Inductive Callback : Type :=
| CbGrace (jid : option string)
| CbPoll (id : option string).

Record Timer : Type := { delay : nat; repeat : bool; callback : Callback }.

Record State : Type := {
  risk : Risk;
  file : option File.t;
  jobId : option string;
  status : option string;
  resultUrl : option string;
  error : option string;
  busy : bool;
  pollRef : option nat;
  timers : gmap nat Timer;
  next_timer : nat;
  awaiting : gmap nat Await;
  next_await : nat;
  sent : list Request
}.

Definition init : State :=
  {| risk := MEDIUM; file := None; jobId := None; status := None;
     resultUrl := None; error := None; busy := false; pollRef := None;
     timers := ∅; next_timer := 1; awaiting := ∅; next_await := 0;
     sent := [] |}.

Definition setRisk (v : Risk) (s : State) : State :=
  {| risk := v; file := file s; jobId := jobId s; status := status s;
     resultUrl := resultUrl s; error := error s; busy := busy s;
     pollRef := pollRef s; timers := timers s; next_timer := next_timer s;
     awaiting := awaiting s; next_await := next_await s; sent := sent s |}.

Definition setFile (v : option File.t) (s : State) : State :=
  {| risk := risk s; file := v; jobId := jobId s; status := status s;
     resultUrl := resultUrl s; error := error s; busy := busy s;
     pollRef := pollRef s; timers := timers s; next_timer := next_timer s;
     awaiting := awaiting s; next_await := next_await s; sent := sent s |}.

Definition setJobId (v : option string) (s : State) : State :=
  {| risk := risk s; file := file s; jobId := v; status := status s;
     resultUrl := resultUrl s; error := error s; busy := busy s;
     pollRef := pollRef s; timers := timers s; next_timer := next_timer s;
     awaiting := awaiting s; next_await := next_await s; sent := sent s |}.

Definition setStatus (v : option string) (s : State) : State :=
  {| risk := risk s; file := file s; jobId := jobId s; status := v;
     resultUrl := resultUrl s; error := error s; busy := busy s;
     pollRef := pollRef s; timers := timers s; next_timer := next_timer s;
     awaiting := awaiting s; next_await := next_await s; sent := sent s |}.

Definition setResultUrl (v : option string) (s : State) : State :=
  {| risk := risk s; file := file s; jobId := jobId s; status := status s;
     resultUrl := v; error := error s; busy := busy s;
     pollRef := pollRef s; timers := timers s; next_timer := next_timer s;
     awaiting := awaiting s; next_await := next_await s; sent := sent s |}.

Definition setError (v : option string) (s : State) : State :=
  {| risk := risk s; file := file s; jobId := jobId s; status := status s;
     resultUrl := resultUrl s; error := v; busy := busy s;
     pollRef := pollRef s; timers := timers s; next_timer := next_timer s;
     awaiting := awaiting s; next_await := next_await s; sent := sent s |}.

Definition setBusy (v : bool) (s : State) : State :=
  {| risk := risk s; file := file s; jobId := jobId s; status := status s;
     resultUrl := resultUrl s; error := error s; busy := v;
     pollRef := pollRef s; timers := timers s; next_timer := next_timer s;
     awaiting := awaiting s; next_await := next_await s; sent := sent s |}.

Definition setPollRef (v : option nat) (s : State) : State :=
  {| risk := risk s; file := file s; jobId := jobId s; status := status s;
     resultUrl := resultUrl s; error := error s; busy := busy s;
     pollRef := v; timers := timers s; next_timer := next_timer s;
     awaiting := awaiting s; next_await := next_await s; sent := sent s |}.

Definition withTimers (m : gmap nat Timer) (n : nat) (s : State) : State :=
  {| risk := risk s; file := file s; jobId := jobId s; status := status s;
     resultUrl := resultUrl s; error := error s; busy := busy s;
     pollRef := pollRef s; timers := m; next_timer := n;
     awaiting := awaiting s; next_await := next_await s; sent := sent s |}.

Definition withAwaiting (m : gmap nat Await) (n : nat) (s : State) : State :=
  {| risk := risk s; file := file s; jobId := jobId s; status := status s;
     resultUrl := resultUrl s; error := error s; busy := busy s;
     pollRef := pollRef s; timers := timers s; next_timer := next_timer s;
     awaiting := m; next_await := n; sent := sent s |}.

Definition withSent (l : list Request) (s : State) : State :=
  {| risk := risk s; file := file s; jobId := jobId s; status := status s;
     resultUrl := resultUrl s; error := error s; busy := busy s;
     pollRef := pollRef s; timers := timers s; next_timer := next_timer s;
     awaiting := awaiting s; next_await := next_await s; sent := l |}.

(** *** The browser: promises and timers *)

(** Suspend the running activation at an [await]. *)
Definition suspend (k : Await) (s : State) : State :=
  withAwaiting (<[next_await s := k]> (awaiting s)) (S (next_await s)) s.

(** [await fetch(...)]: the request leaves, the activation is suspended. *)
Definition fetch (r : Request) (k : Await) (s : State) : State :=
  suspend k (withSent (r :: sent s) s).

(** [setTimeout] / [setInterval]: handles are handed out in increasing
    order and never reused; both kinds share one table. *)
Definition setTimer (t : Timer) (s : State) : nat * State :=
  (next_timer s, withTimers (<[next_timer s := t]> (timers s)) (S (next_timer s)) s).

(** [clearInterval(h)]; a [null] handle clears nothing. *)
Definition clearInterval (h : option nat) (s : State) : State :=
  match h with
  | Some h => withTimers (delete h (timers s)) (next_timer s) s
  | None => s
  end.

(** *** The component's functions *)

Definition pick (f : option File.t) (s : State) : State :=
  if negb (isAllowed f)
  then setFile None (setError (Some msg_only_html_xml) s)
  else setFile f (setError None s).

(** The [catch] block of [start]. *)
Definition fail (m : string) (s : State) : State :=
  setStatus (Some "FAILED") (setBusy false (setError (Some (message_or_default m)) s)).

(** [getJob(id)] up to its first [await]. *)
Definition getJob (c : Caller) (id : option string) (s : State) : State :=
  fetch (GetJob (js_str id)) (AwGet c id) s.

Definition beginPolling (id : option string) (s : State) : State :=
  let s1 := clearInterval (pollRef s) s in
  let s2 := getJob FromBegin id s1 in
  let (h, s3) := setTimer {| delay := 2500; repeat := true; callback := CbPoll id |} s2 in
  setPollRef (Some h) s3.

Definition cancelPolling (s : State) : State :=
  setBusy false (clearInterval (pollRef s) s).

Definition contentTypeOf (f : File.t) : string :=
  match File.type f with
  | String _ _ => File.type f
  | EmptyString =>
      if Regex.test re_xml (File.name f) then "application/xml" else "text/html"
  end.

(** [start()] up to its first [await]. *)
Definition start (s : State) : State :=
  let s1 := setResultUrl None (setError None s) in
  match file s with
  | None => setError (Some msg_please_select) s1
  | Some f =>
      let s2 := setBusy true s1 in
      let contentType := contentTypeOf f in
      fetch (PostJobs (riskKey (risk s)) contentType (File.name f))
            (AwCreate contentType f) s2
  end.

Definition upload_failed (code : nat) (text : string) : string :=
  "Upload failed (" +:+ decimal code +:+ ") " +:+ text.

(** What the caller of [getJob] does with its result: [beginPolling] drops
    it, the interval callback decides whether polling goes on.  [data] is
    [None] for the [null] that [getJob] returns on 404. *)
Definition after_getJob (c : Caller) (data : option Json) (s : State) : State :=
  match c with
  | FromBegin => s
  | FromTick =>
      match data with
      | None => setBusy false (clearInterval (pollRef s) s)
      | Some d =>
          if truthy (result_url d) || bool_decide (j_status d = Some "FAILED")
          then setBusy false (clearInterval (pollRef s) s)
          else s
      end
  end.

(** Resume the activation suspended at [k] with the settled value [v].
    [None]: the value is not one that this [await] can receive. *)
Definition resume (k : Await) (v : Settled) (s : State) : option State :=
  match k, v with
  | AwCreate ct f, Rejected m => Some (fail m s)
  | AwCreate ct f, Response c =>
      if http_ok c then Some (suspend (AwCreateJson ct f) s)
      else Some (fail "Failed to create job" s)
  | AwCreateJson ct f, Rejected m => Some (fail m s)
  | AwCreateJson ct f, Parsed d =>
      let s1 := setStatus (Some "PENDING") (setJobId (job_id d) s) in
      Some (fetch (PutUpload (js_str (upload_url d)) ct f) (AwUpload (job_id d)) s1)
  | AwUpload jid, Rejected m => Some (fail m s)
  | AwUpload jid, Response c =>
      if http_ok c
      then Some (snd (setTimer {| delay := 800; repeat := false; callback := CbGrace jid |} s))
      else Some (suspend (AwUploadText c) s)
  | AwUploadText c, Rejected _ => Some (fail (upload_failed c "") s)
  | AwUploadText c, Text t => Some (fail (upload_failed c t) s)
  | AwStart jid, Rejected m => Some (fail m s)
  | AwStart jid, Response c =>
      if bool_decide (c = 202)
      then Some (beginPolling jid (setStatus (Some "RUNNING") s))
      else Some (fail "Failed to start job" s)
  | AwGet c id, Rejected _ => Some s
  | AwGet c id, Response code =>
      if bool_decide (code = 404) then Some (after_getJob c None s)
      else if http_ok code then Some (suspend (AwGetJson c id) s)
      else Some s
  | AwGetJson c id, Rejected _ => Some s
  | AwGetJson c id, Parsed d =>
      let s1 := setStatus (j_status d) s in
      let s2 := if truthy (result_url d) then setResultUrl (result_url d) s1 else s1 in
      Some (after_getJob c (Some d) s2)
  | _, _ => None
  end.

Definition run_callback (cb : Callback) (s : State) : State :=
  match cb with
  | CbGrace jid => fetch (PostStart (js_str jid)) (AwStart jid) s
  | CbPoll id => getJob FromTick id s
  end.

(** *** Events and steps *)

Inductive Event : Type :=
| Pick (f : option File.t)
| SetRisk (r : Risk)
| Start
| Cancel
| Fire (h : nat)
| Settle (p : nat) (v : Settled).

(** One turn of the event loop.  [None]: the event cannot occur in [s]
    (no such timer, no such pending promise). *)
Definition step (e : Event) (s : State) : option State :=
  match e with
  | Pick f => Some (pick f s)
  | SetRisk r => Some (setRisk r s)
  | Start => Some (start s)
  | Cancel => Some (cancelPolling s)
  | Fire h =>
      match timers s !! h with
      | None => None
      | Some t =>
          let s1 := if repeat t then s
                    else withTimers (delete h (timers s)) (next_timer s) s in
          Some (run_callback (callback t) s1)
      end
  | Settle p v =>
      match awaiting s !! p with
      | None => None
      | Some k => resume k v (withAwaiting (delete p (awaiting s)) (next_await s) s)
      end
  end.

(** What the rendered page offers: the start button is disabled while
    busy or without a file, the cancel button exists only while busy, the
    profile buttons are disabled while busy; a file can always be dropped. *)
Definition offered (e : Event) (s : State) : bool :=
  match e with
  | Start => negb (busy s) && bool_decide (is_Some (file s))
  | Cancel => busy s
  | SetRisk _ => negb (busy s)
  | _ => true
  end.

Fixpoint run (evs : list Event) (s : State) : option State :=
  match evs with
  | [] => Some s
  | e :: evs' =>
      match step e s with
      | Some s' => run evs' s'
      | None => None
      end
  end.

(** A run in which every user action is one the page offers. *)
Fixpoint run_ui (evs : list Event) (s : State) : option State :=
  match evs with
  | [] => Some s
  | e :: evs' =>
      if offered e s
      then match step e s with
           | Some s' => run_ui evs' s'
           | None => None
           end
      else None
  end.

Definition is_poll (r : Request) : bool :=
  match r with
  | GetJob _ => true
  | _ => false
  end.

(** The status queries among the requests sent so far. *)
Definition polls (s : State) : list Request := filter (fun r => is_poll r = true) (sent s).

End Live.

(** ** The simulated driver (first [App] of the source)

    The state is the React state of the component, the refs [timersRef]
    and [intervalsRef], and the browser's table of armed timers.  What the
    browser supplies from outside (the clock, the random number, the blob
    URL) comes with the event. *)

Module Sim.

(** *** Job ids *)

Definition digit36 (d : N) : ascii :=
  if (d <? 10)%N then ascii_of_N (48 + d) else ascii_of_N (87 + d).

(** The digits of [n] in radix 36, most significant first, in front of
    [acc]; [fuel] bounds the number of digits. *)
Fixpoint digits36 (fuel : nat) (n : N) (acc : string) : string :=
  match fuel with
  | O => acc
  | S fuel' =>
      let acc' := String (digit36 (n mod 36)) acc in
      if (n / 36 =? 0)%N then acc' else digits36 fuel' (n / 36)%N acc'
  end.

(** [Number.prototype.toString(36)] on an integer. *)
Definition toString36 (z : Z) : string :=
  match z with
  | Z0 => "0"
  | Zpos p => digits36 (S (N.to_nat (N.log2 (Npos p)))) (Npos p) ""
  | Zneg p => String "-" (digits36 (S (N.to_nat (N.log2 (Npos p)))) (Npos p) "")
  end.

Fixpoint drop_chars (n : nat) (s : string) : string :=
  match n, s with
  | S n', String _ s' => drop_chars n' s'
  | _, _ => s
  end.

Fixpoint take_chars (n : nat) (s : string) : string :=
  match n, s with
  | S n', String c s' => String c (take_chars n' s')
  | _, _ => ""
  end.

(** [String.prototype.slice(from, to)] for [0 <= from <= to]. *)
Definition slice (from to : nat) (s : string) : string :=
  take_chars (to - from) (drop_chars from s).

(** [`JOB-${Date.now().toString(36)}-${Math.random().toString(36).slice(2, 8)}`]:
    [now] is the reading of [Date.now()], [rnd] the text that
    [Math.random().toString(36)] produced. *)
Definition mkJobId (now : Z) (rnd : string) : string :=
  "JOB-" +:+ toString36 now +:+ "-" +:+ slice 2 8 rnd.

(** *** Progress *)

Definition totalMs : Z := 9000.
Definition tickMs : Z := 120.

(** [Math.floor((totalMs - 900) / tickMs)] *)
Definition ticks : Z := (totalMs - 900) / tickMs.

(** [Math.round] of the fraction [a / b] with [b > 0]: the nearest
    integer, halves upwards. *)
Definition round_div (a b : Z) : Z := (2 * a + b) / (2 * b).

(** [Math.min(96, Math.round((k / ticks) * 96))].  The source computes in
    binary floating point; [96 * k / 67] is never closer than [1 / 134] to
    a half-integer, far more than the rounding error of the two
    operations, so the exact quotient rounds to the same integer. *)
Definition pct (k : Z) : Z := Z.min 96 (round_div (k * 96) ticks).

(** *** State *)

Record Payload : Type := {
  summary : string;
  stocks : list string;
  comment : string
}.

Definition mock (fname : string) (r : Risk) : Payload :=
  {| summary := "Document parsed successfully. Portfolio screened for legislative risk; sector tilts and top holdings updated.";
     stocks := ["AAPL"; "MSFT"; "AMZN"];
     comment := "Processed " +:+ fname +:+ " under " +:+ riskKey r +:+
                " profile. Use “View After Analysis” to see the recommended positioning and rationale." |}.

(** What a timer runs when it fires.  [CbTick k] is the interval callback
    together with the counter [k] of the enclosing call of [start];
    [CbToComplete] closes over the file and the profile of that call. *)
Inductive Callback : Type :=
| CbToRunning
| CbTick (k : Z)
| CbToComplete (f : File.t) (r : Risk)
| CbConfetti.

Record Timer : Type := { delay : Z; repeat : bool; callback : Callback }.

Record State : Type := {
  risk : Risk;
  file : option File.t;
  jobId : option string;
  status : option string;
  resultUrl : option string;
  resultData : option Payload;
  error : option string;
  busy : bool;
  progress : Z;
  showConfetti : bool;
  timersRef : list nat;
  intervalsRef : list nat;
  timers : gmap nat Timer;
  next_timer : nat
}.

Definition init : State :=
  {| risk := MEDIUM; file := None; jobId := None; status := None;
     resultUrl := None; resultData := None; error := None; busy := false;
     progress := 0; showConfetti := false; timersRef := []; intervalsRef := [];
     timers := ∅; next_timer := 1 |}.

Definition setRisk (v : Risk) (s : State) : State :=
  {| risk := v; file := file s; jobId := jobId s; status := status s;
     resultUrl := resultUrl s; resultData := resultData s; error := error s;
     busy := busy s; progress := progress s; showConfetti := showConfetti s;
     timersRef := timersRef s; intervalsRef := intervalsRef s;
     timers := timers s; next_timer := next_timer s |}.

Definition setFile (v : option File.t) (s : State) : State :=
  {| risk := risk s; file := v; jobId := jobId s; status := status s;
     resultUrl := resultUrl s; resultData := resultData s; error := error s;
     busy := busy s; progress := progress s; showConfetti := showConfetti s;
     timersRef := timersRef s; intervalsRef := intervalsRef s;
     timers := timers s; next_timer := next_timer s |}.

Definition setJobId (v : option string) (s : State) : State :=
  {| risk := risk s; file := file s; jobId := v; status := status s;
     resultUrl := resultUrl s; resultData := resultData s; error := error s;
     busy := busy s; progress := progress s; showConfetti := showConfetti s;
     timersRef := timersRef s; intervalsRef := intervalsRef s;
     timers := timers s; next_timer := next_timer s |}.

Definition setStatus (v : option string) (s : State) : State :=
  {| risk := risk s; file := file s; jobId := jobId s; status := v;
     resultUrl := resultUrl s; resultData := resultData s; error := error s;
     busy := busy s; progress := progress s; showConfetti := showConfetti s;
     timersRef := timersRef s; intervalsRef := intervalsRef s;
     timers := timers s; next_timer := next_timer s |}.

Definition setResultUrl (v : option string) (s : State) : State :=
  {| risk := risk s; file := file s; jobId := jobId s; status := status s;
     resultUrl := v; resultData := resultData s; error := error s;
     busy := busy s; progress := progress s; showConfetti := showConfetti s;
     timersRef := timersRef s; intervalsRef := intervalsRef s;
     timers := timers s; next_timer := next_timer s |}.

Definition setResultData (v : option Payload) (s : State) : State :=
  {| risk := risk s; file := file s; jobId := jobId s; status := status s;
     resultUrl := resultUrl s; resultData := v; error := error s;
     busy := busy s; progress := progress s; showConfetti := showConfetti s;
     timersRef := timersRef s; intervalsRef := intervalsRef s;
     timers := timers s; next_timer := next_timer s |}.

Definition setError (v : option string) (s : State) : State :=
  {| risk := risk s; file := file s; jobId := jobId s; status := status s;
     resultUrl := resultUrl s; resultData := resultData s; error := v;
     busy := busy s; progress := progress s; showConfetti := showConfetti s;
     timersRef := timersRef s; intervalsRef := intervalsRef s;
     timers := timers s; next_timer := next_timer s |}.

Definition setBusy (v : bool) (s : State) : State :=
  {| risk := risk s; file := file s; jobId := jobId s; status := status s;
     resultUrl := resultUrl s; resultData := resultData s; error := error s;
     busy := v; progress := progress s; showConfetti := showConfetti s;
     timersRef := timersRef s; intervalsRef := intervalsRef s;
     timers := timers s; next_timer := next_timer s |}.

Definition setProgress (v : Z) (s : State) : State :=
  {| risk := risk s; file := file s; jobId := jobId s; status := status s;
     resultUrl := resultUrl s; resultData := resultData s; error := error s;
     busy := busy s; progress := v; showConfetti := showConfetti s;
     timersRef := timersRef s; intervalsRef := intervalsRef s;
     timers := timers s; next_timer := next_timer s |}.

Definition setShowConfetti (v : bool) (s : State) : State :=
  {| risk := risk s; file := file s; jobId := jobId s; status := status s;
     resultUrl := resultUrl s; resultData := resultData s; error := error s;
     busy := busy s; progress := progress s; showConfetti := v;
     timersRef := timersRef s; intervalsRef := intervalsRef s;
     timers := timers s; next_timer := next_timer s |}.

Definition withTimersRef (l : list nat) (s : State) : State :=
  {| risk := risk s; file := file s; jobId := jobId s; status := status s;
     resultUrl := resultUrl s; resultData := resultData s; error := error s;
     busy := busy s; progress := progress s; showConfetti := showConfetti s;
     timersRef := l; intervalsRef := intervalsRef s;
     timers := timers s; next_timer := next_timer s |}.

Definition withIntervalsRef (l : list nat) (s : State) : State :=
  {| risk := risk s; file := file s; jobId := jobId s; status := status s;
     resultUrl := resultUrl s; resultData := resultData s; error := error s;
     busy := busy s; progress := progress s; showConfetti := showConfetti s;
     timersRef := timersRef s; intervalsRef := l;
     timers := timers s; next_timer := next_timer s |}.

Definition withTimers (m : gmap nat Timer) (n : nat) (s : State) : State :=
  {| risk := risk s; file := file s; jobId := jobId s; status := status s;
     resultUrl := resultUrl s; resultData := resultData s; error := error s;
     busy := busy s; progress := progress s; showConfetti := showConfetti s;
     timersRef := timersRef s; intervalsRef := intervalsRef s;
     timers := m; next_timer := n |}.

(** *** The browser's timers *)

(** [setTimeout] / [setInterval]: handles are handed out in increasing
    order and never reused; both kinds share one table. *)
Definition setTimer (t : Timer) (s : State) : nat * State :=
  (next_timer s, withTimers (<[next_timer s := t]> (timers s)) (S (next_timer s)) s).

(** [handles.forEach((t) => clearTimeout(t))] *)
Definition clearAll (handles : list nat) (s : State) : State :=
  withTimers (foldr (fun h m => delete h m) (timers s) handles) (next_timer s) s.

(** *** The component's functions *)

Definition pick (f : option File.t) (s : State) : State :=
  if negb (isAllowed f)
  then setFile None (setError (Some msg_only_html_xml) s)
  else setFile f (setError None s).

Definition clearTimers (s : State) : State :=
  withIntervalsRef []
    (withTimersRef []
       (clearAll (intervalsRef s) (clearAll (timersRef s) s))).

Definition cancelPolling (s : State) : State := setBusy false (clearTimers s).

(** [start()]; [now] and [rnd] are what [Date.now()] and
    [Math.random().toString(36)] return in this call.  Nothing inside the
    [try] block can throw, so its [catch] is not modelled. *)
Definition start (now : Z) (rnd : string) (s : State) : State :=
  let s1 := setProgress 0 (setShowConfetti false (setResultData None
              (setResultUrl None (setError None s)))) in
  match file s with
  | None => setError (Some msg_please_select) s1
  | Some f =>
      let s2 := setStatus (Some "PENDING") (setBusy true s1) in
      let s3 := setJobId (Some (mkJobId now rnd)) s2 in
      let (toRunning, s4) :=
        setTimer {| delay := 900; repeat := false; callback := CbToRunning |} s3 in
      let s5 := withTimersRef (timersRef s4 ++ [toRunning]) s4 in
      let (interval, s6) :=
        setTimer {| delay := tickMs; repeat := true; callback := CbTick 0 |} s5 in
      let s7 := withIntervalsRef (intervalsRef s6 ++ [interval]) s6 in
      let (toComplete, s8) :=
        setTimer {| delay := totalMs; repeat := false; callback := CbToComplete f (risk s) |} s7 in
      withTimersRef (timersRef s8 ++ [toComplete]) s8
  end.

(** The callback of [toComplete]; [blob] is the part after the scheme of
    the URL that [URL.createObjectURL] returns. *)
Definition complete (f : File.t) (r : Risk) (blob : string) (s : State) : State :=
  let s1 := withIntervalsRef [] (clearAll (intervalsRef s) s) in
  let s2 := setResultData (Some (mock (File.name f) r)) (setProgress 100 s1) in
  let s3 := setResultUrl (Some ("blob:" +:+ blob)) s2 in
  let s4 := setShowConfetti true (setBusy false (setStatus (Some "COMPLETED") s3)) in
  let (confettiTimer, s5) :=
    setTimer {| delay := 2500; repeat := false; callback := CbConfetti |} s4 in
  withTimersRef (timersRef s5 ++ [confettiTimer]) s5.

(** Run the callback of timer [h]. *)
Definition run_callback (h : nat) (t : Timer) (blob : string) (s : State) : State :=
  match callback t with
  | CbToRunning => setStatus (Some "RUNNING") s
  | CbTick k =>
      let k' := (k + 1)%Z in
      let s1 := withTimers
                  (<[h := {| delay := delay t; repeat := repeat t; callback := CbTick k' |}]> (timers s))
                  (next_timer s) s in
      setProgress (pct k') s1
  | CbToComplete f r => complete f r blob s
  | CbConfetti => setShowConfetti false s
  end.

(** *** Events and steps *)

Inductive Event : Type :=
| Pick (f : option File.t)
| SetRisk (r : Risk)
| Start (now : Z) (rnd : string)
| Cancel
| Fire (h : nat) (blob : string).

(** One turn of the event loop; timers may fire in any order, which
    includes every order the browser can produce.  [None]: no timer [h]. *)
Definition step (e : Event) (s : State) : option State :=
  match e with
  | Pick f => Some (pick f s)
  | SetRisk r => Some (setRisk r s)
  | Start now rnd => Some (start now rnd s)
  | Cancel => Some (cancelPolling s)
  | Fire h blob =>
      match timers s !! h with
      | None => None
      | Some t =>
          let s1 := if repeat t then s
                    else withTimers (delete h (timers s)) (next_timer s) s in
          Some (run_callback h t blob s1)
      end
  end.

Definition is_start (e : Event) : bool :=
  match e with
  | Start _ _ => true
  | _ => false
  end.

(** What the rendered page offers, as in the live driver. *)
Definition offered (e : Event) (s : State) : bool :=
  match e with
  | Start _ _ => negb (busy s) && bool_decide (is_Some (file s))
  | Cancel => busy s
  | SetRisk _ => negb (busy s)
  | _ => true
  end.

Fixpoint run (evs : list Event) (s : State) : option State :=
  match evs with
  | [] => Some s
  | e :: evs' =>
      match step e s with
      | Some s' => run evs' s'
      | None => None
      end
  end.

(** A run in which every user action is one the page offers. *)
Fixpoint run_ui (evs : list Event) (s : State) : option State :=
  match evs with
  | [] => Some s
  | e :: evs' =>
      if offered e s
      then match step e s with
           | Some s' => run_ui evs' s'
           | None => None
           end
      else None
  end.

End Sim.

(** ** Vocabulary of the specification *)

Definition lower_char (c : ascii) : ascii :=
  let n := N_of_ascii c in
  if ((65 <=? n) && (n <=? 90))%N then ascii_of_N (n + 32) else c.

Fixpoint lower (s : string) : string :=
  match s with
  | EmptyString => EmptyString
  | String c s' => String (lower_char c) (lower s')
  end.

(** [n] ends, up to the case of ASCII letters, with the extension [ext]. *)
Definition ends_with_ci (ext n : string) : Prop :=
  ∃ p t, n = p +:+ t ∧ lower t = ext.

Definition has_allowed_ext (n : string) : Prop :=
  ends_with_ci ".htm" n ∨ ends_with_ci ".html" n ∨ ends_with_ci ".xml" n.

(** *** Vocabulary for the live driver *)

Module LiveSpec.
Import Live.

Definition reachable (s : State) : Prop := ∃ evs, run evs init = Some s.

Definition is_poll_timer (t : Timer) : bool :=
  match callback t with
  | CbPoll _ => true
  | CbGrace _ => false
  end.

(** An activation of [start] that has not run to its end. *)
Definition of_start (k : Await) : bool :=
  match k with
  | AwGet _ _ | AwGetJson _ _ => false
  | _ => true
  end.

(** No polling interval is armed. *)
Definition no_poll_timer (s : State) : Prop :=
  ∀ h t, timers s !! h = Some t → is_poll_timer t = false.

(** The submission sequence is over: no activation of [start] is
    suspended at a request or in the grace delay. *)
Definition submission_over (s : State) : Prop :=
  map_Forall (λ _ k, of_start k = false) (awaiting s)
  ∧ map_Forall (λ _ t, is_poll_timer t = true) (timers s).

Definition not_start (e : Event) : Prop := e ≠ Start.

(** After [cancelPolling()] in [s], no later event other than a new
    click on start makes the component send a status query. *)
Definition cancel_silences (s : State) : Prop :=
  ∀ evs s', Forall not_start evs →
            run evs (cancelPolling s) = Some s' → polls s' = polls s.

(** The status query of a tick fails: the request is rejected, the
    response is an error other than 404, or its body does not parse. *)
Definition query_fails (k : Await) (v : Settled) : bool :=
  match k, v with
  | AwGet FromTick _, Rejected _ => true
  | AwGet FromTick _, Response code => negb (bool_decide (code = 404)) && negb (http_ok code)
  | AwGetJson FromTick _, Rejected _ => true
  | _, _ => false
  end.

Definition terminal (st : option string) : Prop :=
  st = Some "COMPLETED" ∨ st = Some "FAILED".

Definition grace_timer (jid : option string) : Timer :=
  {| delay := 800; repeat := false; callback := CbGrace jid |}.

Definition poll_timer (id : option string) : Timer :=
  {| delay := 2500; repeat := true; callback := CbPoll id |}.

(** Every armed timer is the polling interval that [pollRef] holds, or
    the grace delay of a submission. *)
Definition timers_ok (s : State) : Prop :=
  ∀ h t, timers s !! h = Some t →
         (∃ id, t = poll_timer id ∧ pollRef s = Some h) ∨ (∃ jid, t = grace_timer jid).

(** Nothing is left that could send a status query: no activation of
    [start] is suspended and no timer is armed. *)
Definition quiet (s : State) : Prop :=
  (∀ p k, awaiting s !! p = Some k → of_start k = false)
  ∧ (∀ h, timers s !! h = None).

End LiveSpec.

(** *** Vocabulary for the simulated driver *)

Module SimSpec.
Import Sim.

(** Reachable by events the page offers. *)
Definition ui_reachable (s : State) : Prop := ∃ evs, run_ui evs init = Some s.

Definition is_tick (t : Timer) : bool :=
  match callback t with
  | CbTick _ => true
  | _ => false
  end.

(** The repeating interval is armed. *)
Definition ticking (s : State) : Prop :=
  ∃ h t, timers s !! h = Some t ∧ is_tick t = true.

(** The event fires the completion timer of a submission of file [f]
    under profile [r]. *)
Definition completes (e : Event) (s : State) (f : File.t) (r : Risk) : Prop :=
  ∃ h blob, e = Fire h blob
            ∧ timers s !! h = Some {| delay := totalMs; repeat := false;
                                      callback := CbToComplete f r |}.

(** At most one interval is armed; it is listed in [intervalsRef], it has
    the period [tickMs], and the progress shown is the one its counter
    gives. *)
Definition ticks_ok (s : State) : Prop :=
  (∀ h t, timers s !! h = Some t → is_tick t = true →
          h ∈ intervalsRef s
          ∧ ∃ k, t = {| delay := tickMs; repeat := true; callback := CbTick k |}
                 ∧ (0 ≤ k)%Z ∧ progress s = pct k)
  ∧ (∀ h h' t t', timers s !! h = Some t → timers s !! h' = Some t' →
                  is_tick t = true → is_tick t' = true → h = h').

(** Every completion timer is the one-shot timer of [totalMs]. *)
Definition completions_ok (s : State) : Prop :=
  ∀ h t f r, timers s !! h = Some t → callback t = CbToComplete f r →
             t = {| delay := totalMs; repeat := false; callback := CbToComplete f r |}.

Definition sim_inv (s : State) : Prop :=
  ticks_ok s ∧ completions_ok s
  ∧ (0 ≤ progress s ≤ 100)%Z
  ∧ (busy s = false → ¬ ticking s).

Fixpoint dash_free (s : string) : bool :=
  match s with
  | EmptyString => true
  | String c s' => negb (Ascii.eqb c "-") && dash_free s'
  end.

Definition digit_val (c : ascii) : N :=
  let n := N_of_ascii c in
  if (n <? 58)%N then (n - 48)%N else (n - 87)%N.

(** The number a radix-36 numeral denotes. *)
Fixpoint val36 (s : string) : N :=
  match s with
  | EmptyString => 0
  | String c s' => (digit_val c * 36 ^ N.of_nat (String.length s') + val36 s')%N
  end.

End SimSpec.

(** ** Sample inputs *)

Definition law_html : File.t :=
  {| File.name := "law.html"; File.size := 2048; File.type := "text/html" |}.

Definition brief_pdf : File.t :=
  {| File.name := "brief.pdf"; File.size := 4096; File.type := "application/pdf" |}.

Definition act_XML : File.t :=
  {| File.name := "Act.XML"; File.size := 512; File.type := "" |}.

Module LiveRuns.
Import Live.

Definition created : Json :=
  {| job_id := Some "j-1"; upload_url := Some "https://bucket/upload/j-1";
     j_status := None; result_url := None |}.

Definition completed_with_url : Json :=
  {| job_id := Some "j-1"; upload_url := None;
     j_status := Some "COMPLETED"; result_url := Some "https://bucket/result/j-1.json" |}.

Definition completed_without_url : Json :=
  {| job_id := Some "j-1"; upload_url := None;
     j_status := Some "COMPLETED"; result_url := None |}.

Definition running_with_url : Json :=
  {| job_id := Some "j-1"; upload_url := None;
     j_status := Some "RUNNING"; result_url := Some "https://bucket/result/j-1.json" |}.

(** Pick a file, click start, the job is created, the upload succeeds:
    the submission now sits in its grace delay (timer 1). *)
Definition until_grace : list Event :=
  [Pick (Some law_html); Start; Settle 0 (Response 201); Settle 1 (Parsed created);
   Settle 2 (Response 200)].

Definition in_grace : State := default init (run_ui until_grace init).

(** The grace delay elapses, the start call is accepted, the interval
    (timer 2) ticks once. *)
Definition grace_to_tick : list Event :=
  [Fire 1; Settle 3 (Response 202); Fire 2].

(** The same, up to the point where the body of the tick's response is
    awaited (promise 6). *)
Definition until_reply : list Event :=
  until_grace ++ grace_to_tick ++ [Settle 5 (Response 200)].

Definition at_reply : State := default init (run_ui until_reply init).

Definition after_completed_without_url : State :=
  default init (step (Settle 6 (Parsed completed_without_url)) at_reply).

Definition after_running_with_url : State :=
  default init (step (Settle 6 (Parsed running_with_url)) at_reply).

(** A whole submission that completes with a result, then a second click
    on start. *)
Definition until_done : list Event :=
  until_reply ++ [Settle 6 (Parsed completed_with_url)].

(** The state after [until_grace] and [grace_to_tick]: polling is under
    way, two status queries are in flight. *)
Definition polling : State := default init (run_ui (until_grace ++ grace_to_tick) init).

Definition done : State := default init (run_ui until_done init).

Definition restarted : State := default init (run_ui (until_done ++ [Start]) init).

End LiveRuns.

Module SimRuns.
Import Sim.

(** Two submissions, each run to completion, for which the clock reads the
    same millisecond and the random texts agree in the six characters
    that are kept. *)
Definition same_reading : list Event :=
  [Pick (Some law_html);
   Start 1762041600000 "0.k3f9x2p7c1m"; Fire 1 ""; Fire 2 ""; Fire 3 "a1";
   Start 1762041600000 "0.k3f9x2zz8qd"; Fire 5 ""; Fire 6 ""; Fire 7 "b2"].

Definition first_done : State := default init (run_ui (take 5 same_reading) init).

Definition second_done : State := default init (run_ui same_reading init).

(** One submission after its second tick. *)
Definition two_ticks : list Event :=
  [Pick (Some law_html); Start 1762041600000 "0.k3f9x2p7c1m";
   Fire 1 ""; Fire 2 ""; Fire 2 ""].

Definition after_two_ticks : State := default init (run_ui two_ticks init).

(** The same submission after its completion timer has fired. *)
Definition completed : State := default init (step (Fire 3 "a1") after_two_ticks).

End SimRuns.


(** ** Static assets and reading guides (top of the first [App] file) *)

Module Assets.

(** [import.meta.env], by the two members the file reads. *)
Record Env : Type := { VITE_STATIC_PREFIX : option string; env_BASE_URL : option string }.

(** [(import.meta && import.meta.env && import.meta.env.X) || d] *)
Definition or_default (v : option string) (d : string) : string :=
  if truthy v then js_str v else d.

Definition STATIC_PREFIX (env : Env) : string := or_default (VITE_STATIC_PREFIX env) "/static".
Definition BASE_URL (env : Env) : string := or_default (env_BASE_URL env) "/".

(** [Array.prototype.join(sep)] on strings. *)
Fixpoint array_join (sep : string) (parts : list string) : string :=
  match parts with
  | [] => ""
  | p :: rest =>
      match rest with
      | [] => p
      | _ :: _ => p +:+ sep +:+ array_join sep rest
      end
  end.

(** [.replace(/\/{2,}/g, '/')]: every maximal run of slashes becomes one
    slash.  [after_slash] tells that the character before was a slash. *)
Fixpoint collapse_from (after_slash : bool) (s : string) : string :=
  match s with
  | EmptyString => EmptyString
  | String c s' =>
      if Ascii.eqb c "/"
      then if after_slash then collapse_from true s'
           else String c (collapse_from true s')
      else String c (collapse_from false s')
  end.

Definition collapse_slashes (s : string) : string := collapse_from false s.

(** [.replace(/\/(\?|#)/, '$1')]: the first slash that stands before a
    question mark or a hash is dropped. *)
Fixpoint unslash_mark (s : string) : string :=
  match s with
  | EmptyString => EmptyString
  | String c s' =>
      match s' with
      | String m _ =>
          if Ascii.eqb c "/" && (Ascii.eqb m "?" || Ascii.eqb m "#")
          then s'
          else String c (unslash_mark s')
      | EmptyString => String c EmptyString
      end
  end.

(** [const join = (...parts) => parts.join('/').replace(...).replace(...)] *)
Definition join (parts : list string) : string :=
  unslash_mark (collapse_slashes (array_join "/" parts)).

(** [String.prototype.endsWith('/')] *)
Fixpoint ends_with_slash (s : string) : bool :=
  match s with
  | EmptyString => false
  | String c EmptyString => Ascii.eqb c "/"
  | String _ s' => ends_with_slash s'
  end.

(** [.replace(/^\/+/, '')] *)
Fixpoint strip_leading_slashes (s : string) : string :=
  match s with
  | String c s' => if Ascii.eqb c "/" then strip_leading_slashes s' else s
  | EmptyString => EmptyString
  end.

Definition assetUrl (env : Env) (relativePath : string) : string :=
  let base := if ends_with_slash (BASE_URL env) then BASE_URL env
              else BASE_URL env +:+ "/" in
  let prefix := match STATIC_PREFIX env with
                | String c rest => if Ascii.eqb c "/" then rest else STATIC_PREFIX env
                | EmptyString => STATIC_PREFIX env
                end in
  let rel := strip_leading_slashes relativePath in
  join [base; prefix; rel].

(** [RISK_TO_PREFIX] *)
Definition RISK_TO_PREFIX (r : Risk) : string :=
  match r with
  | SAFE => "faible"
  | MEDIUM => "moyen"
  | RISKY => "fort"
  end.

Record Card : Type := { title : string; caption : string; files : list string }.

(** [ASSETS.BEFORE] *)
Definition BEFORE (risk : Risk) : list Card :=
  let p := RISK_TO_PREFIX risk in
  [
      {| title := "Sector Allocation Overview";
         caption := "Distribution of exposure by sector prior to any legislative-risk adjustment. The Full view spans the complete universe; Top 30 isolates the most exposed names.";
         files := ["sector_dist/" +:+ p +:+ "_dist_full.html"; "sector_dist/" +:+ p +:+ "_dist_top30.html"] |};
      {| title := "Top 30 Constituents — Snapshot (Before)";
         caption := "Top 30 tickers by weight before the regulatory event. Use this to sanity-check concentration, liquidity, and pre-event sensitivity.";
         files := ["charts/" +:+ p +:+ "_top30_before.html"; "tables/" +:+ p +:+ "_top30.html"] |};
      {| title := "Market Structure — Clusters (Before)";
         caption := "Pre-announcement market structure. Clusters indicate correlated behavior that can amplify drawdowns.";
         files := ["charts/clusters_before.html"] |}
  ].

(** [ASSETS.AFTER] *)
Definition AFTER (risk : Risk) : list Card :=
  let p := RISK_TO_PREFIX risk in
  [
      {| title := "Top 30 Constituents — Rebalanced (After)";
         caption := "Post-event equity list after risk screening. Compare against Before to see rotation and de-risking effects.";
         files := ["charts/" +:+ p +:+ "_top30_after.html"] |};
      {| title := "Sector Allocation — Post-Event";
         caption := "Sector tilt after applying legislative-risk adjustments. Expect defensives to rise for Low Exposure, cyclicals for High Exposure.";
         files := ["sector_dist/" +:+ p +:+ "_dist_full.html"; "sector_dist/" +:+ p +:+ "_dist_top30.html"] |};
      {| title := "Market Structure — Clusters (After)";
         caption := "Groupings after the policy shock. Divergence vs. Before highlights names driving risk migration.";
         files := ["charts/clusters_after.html"] |}
  ].

Record Guide : Type := { g_title : string; bullets : list string }.

Definition guide_clusters_before : Guide :=
  {| g_title := "How to read this cluster map";
     bullets :=
       ["Each point represents an S&P 500 stock positioned by its daily return on the announcement day (x-axis) and its 30-day volatility prior to the event (y-axis).";
        "This shows how stocks were distributed in terms of risk (volatility) and market reaction (return) before the law was announced.";
        "Clusters highlight groups of securities with similar behavior, separating highly volatile, reactive names from stable, low-risk performers."] |}.

Definition guide_clusters_after : Guide :=
  {| g_title := "How to read this cluster map";
     bullets :=
       ["Each point represents an S&P 500 stock using the same axes: announcement-day return (x) and 30-day pre-event volatility (y).";
        "Compare shapes and densities to the Before view to spot regime shifts and risk migration post-disclosure.";
        "Clusters that move up/right indicate pockets of elevated risk and outsized reactions; stable clusters remain low and near zero on the x-axis."] |}.

Definition guide_top30_before : Guide :=
  {| g_title := "How to read this scatter chart (Top 30 — Before)";
     bullets :=
       ["Each point is one of the 30 most exposed S&P 500 stocks, positioned by announcement-day return (x) and 30-day volatility before the event (y).";
        "This focused view isolates names with the highest pre-announcement sensitivity to identify elevated risk or momentum.";
        "Clusters reveal collective behavior among key securities, distinguishing high-risk/high-reaction names from defensive, low-volatility patterns."] |}.

Definition guide_top30_after : Guide :=
  {| g_title := "How to read this scatter chart (Top 30 — After)";
     bullets :=
       ["Points are the 30 most exposed stocks plotted by announcement-day return (x) and pre-event 30-day volatility (y) to preserve comparability with Before.";
        "Shifts relative to the Before view indicate which names absorbed or amplified the regulatory shock.";
        "Use dispersion and quadrant concentration to diagnose where risk concentrated after screening and rebalancing."] |}.

Definition guide_dist_full : Guide :=
  {| g_title := "How to read this bar chart (Full universe)";
     bullets :=
       ["Each bar is portfolio exposure to a sector as a percentage of total holdings across the full S&P 500 universe considered in this study.";
        "Provides a broad market picture to contextualize concentration and diversification before and after adjustments.";
        "Use this with the Top 30 view to separate structural sector tilt from exposure driven by the most sensitive names."] |}.

Definition guide_dist_top30 : Guide :=
  {| g_title := "How to read this bar chart (Top 30 focus)";
     bullets :=
       ["Each bar reflects sector exposure within the 30 most exposed stocks — the names that drive most portfolio sensitivity to the regulation.";
        "Contrasting with the Full view highlights concentration risk and key contributors to regulatory impact.";
        "Large gaps vs. the Full view suggest targeted overexposure that may warrant position sizing or hedging."] |}.

Definition guide_table : Guide :=
  {| g_title := "How to read this table (Top 30 snapshot)";
     bullets :=
       ["Rows list the 30 highest-exposure names with weights and diagnostics; use weights for concentration checks and liquidity for tradability.";
        "Cross-reference with the scatter to confirm whether heavy weights also sit in high-volatility, high-reaction quadrants.";
        "Look for sector clustering within the top rows as an early signal of thematic concentration."] |}.

(** [String.prototype.includes] *)
Fixpoint includes (needle hay : string) : bool :=
  String.prefix needle hay ||
  match hay with
  | EmptyString => false
  | String _ hay' => includes needle hay'
  end.

(** [getReadingGuideForSrc]; [lower] stands for [toLowerCase]: it folds
    the ASCII letters, and no character outside ASCII folds to a text that
    completes one of the patterns below. *)
Definition getReadingGuideForSrc (src : string) : option Guide :=
  let s := lower src in
  if includes "clusters_before" s then Some guide_clusters_before
  else if includes "clusters_after" s then Some guide_clusters_after
  else if includes "_top30_before" s && includes "charts/" s then Some guide_top30_before
  else if includes "_top30_after" s && includes "charts/" s then Some guide_top30_after
  else if includes "sector_dist" s && includes "_dist_full" s then Some guide_dist_full
  else if includes "sector_dist" s && includes "_dist_top30" s then Some guide_dist_top30
  else if includes "/tables/" s && includes "_top30.html" s then Some guide_table
  else None.

(** What [IframeCard] shows for one file of a card: the frame's address
    and the guide under it. *)
Definition frame (env : Env) (src : string) : string * option Guide :=
  (assetUrl env src, getReadingGuideForSrc src).

End Assets.

(** *** Vocabulary for the assets *)

Module AssetsSpec.
Import Assets.

(** No two slashes stand side by side; with [after_slash], the text does
    not begin with one either. *)
Fixpoint single_slashes (after_slash : bool) (s : string) : bool :=
  match s with
  | EmptyString => true
  | String c s' =>
      if Ascii.eqb c "/" then negb after_slash && single_slashes true s'
      else single_slashes false s'
  end.

(** A path that [join] leaves as it is when it follows a slash: it has no
    run of slashes, no slash before a question mark or a hash, and does
    not begin with any of the three. *)
Fixpoint plain_from (after_slash : bool) (s : string) : bool :=
  match s with
  | EmptyString => true
  | String c s' =>
      if Ascii.eqb c "/" then negb after_slash && plain_from true s'
      else negb (after_slash && (Ascii.eqb c "?" || Ascii.eqb c "#"))
           && plain_from false s'
  end.

Definition default_env : Env := {| VITE_STATIC_PREFIX := None; env_BASE_URL := None |}.

(** All files of the cards shown for a profile. *)
Definition shown_files (r : Risk) : list string :=
  concat (map files (BEFORE r ++ AFTER r)).

Definition is_table (src : string) : bool := String.prefix "tables/" src.

End AssetsSpec.

(** *** More vocabulary for the live driver *)

Module LiveTerms.
Import Live LiveSpec.

(** The message with which an activation of [start] fails when the
    promise it awaits at [k] settles with [v]; [None] when it goes on. *)
Definition failure_message (k : Await) (v : Settled) : option string :=
  match k, v with
  | AwCreate _ _, Rejected m => Some (message_or_default m)
  | AwCreate _ _, Response c => if http_ok c then None else Some "Failed to create job"
  | AwCreateJson _ _, Rejected m => Some (message_or_default m)
  | AwUpload _, Rejected m => Some (message_or_default m)
  | AwUploadText c, Rejected _ => Some (upload_failed c "")
  | AwUploadText c, Text t => Some (upload_failed c t)
  | AwStart _, Rejected m => Some (message_or_default m)
  | AwStart _, Response c => if bool_decide (c = 202) then None else Some "Failed to start job"
  | _, _ => None
  end.

(** While the busy flag is set something is still to happen: an
    activation of [start] is suspended, or a timer is armed. *)
Definition busy_has_work (s : State) : Prop :=
  busy s = true →
  (∃ p k, awaiting s !! p = Some k ∧ of_start k = true)
  ∨ (∃ h t, timers s !! h = Some t).

(** Promises are numbered in the order in which they are awaited. *)
Definition fresh_awaits (s : State) : Prop :=
  ∀ p k, awaiting s !! p = Some k → p < next_await s.

(** What made the component send the request [r] in the step [e] from
    [s]. *)
Definition cause (e : Event) (s : State) (r : Request) : Prop :=
  match r with
  | PostJobs rp ct fn =>
      e = Start
      ∧ ∃ f, file s = Some f ∧ rp = riskKey (risk s)
             ∧ ct = contentTypeOf f ∧ fn = File.name f
  | PutUpload u ct f =>
      ∃ p d, e = Settle p (Parsed d) ∧ awaiting s !! p = Some (AwCreateJson ct f)
             ∧ u = js_str (upload_url d)
  | PostStart j =>
      ∃ h t jid, e = Fire h ∧ timers s !! h = Some t
                 ∧ callback t = CbGrace jid ∧ j = js_str jid
  | GetJob j =>
      (∃ p jid, e = Settle p (Response 202) ∧ awaiting s !! p = Some (AwStart jid)
                ∧ j = js_str jid)
      ∨ (∃ h t id, e = Fire h ∧ timers s !! h = Some t
                   ∧ callback t = CbPoll id ∧ j = js_str id)
  end.

End LiveTerms.

(** ** The result fetch of the live driver

    The effect of the live [App] that depends on [resultUrl]: after a
    render in which [resultUrl] has changed, the cleanup of the previous
    run sets its [aborted] variable, and the new run, if [resultUrl] is
    truthy, clears [resultData] and calls [fetchResult].  The state of
    the live driver is extended by [resultData], by the activations of
    [fetchResult] in flight, each with the [aborted] variable of the run
    that started it, and by the log of the addresses fetched.  [Data] is
    the parsed body, which the component passes on as it is. *)

Module ResultView.
Section WithData.
Variable Data : Type.

(** How an awaited promise of [fetchResult] settles. *)
Inductive RSettled : Type :=
| RRejected (message : string)
| RResponse (code : nat)
| RParsed (d : Data).

(** The [await] at which an activation of [fetchResult] is suspended. *)
Inductive Stage : Type := AtFetch | AtJson.

Record Activation : Type := { stage : Stage; url : string; aborted : bool }.

Record State : Type := {
  live : Live.State;
  resultData : option Data;
  fetching : gmap nat Activation;
  next_fetch : nat;
  fetched : list string
}.

Definition init : State :=
  {| live := Live.init; resultData := None; fetching := ∅; next_fetch := 0;
     fetched := [] |}.

Definition withLive (l : Live.State) (s : State) : State :=
  {| live := l; resultData := resultData s; fetching := fetching s;
     next_fetch := next_fetch s; fetched := fetched s |}.

Definition setResultData (v : option Data) (s : State) : State :=
  {| live := live s; resultData := v; fetching := fetching s;
     next_fetch := next_fetch s; fetched := fetched s |}.

Definition withFetching (m : gmap nat Activation) (s : State) : State :=
  {| live := live s; resultData := resultData s; fetching := m;
     next_fetch := next_fetch s; fetched := fetched s |}.

Definition abort (a : Activation) : Activation :=
  {| stage := stage a; url := url a; aborted := true |}.

(** [return () => { aborted = true }] *)
Definition cleanup (s : State) : State := withFetching (abort <$> fetching s) s.

(** [fetchResult(u)] up to its first [await]. *)
Definition fetchResult (u : string) (s : State) : State :=
  {| live := live s; resultData := resultData s;
     fetching := <[next_fetch s := {| stage := AtFetch; url := u; aborted := false |}]>
                   (fetching s);
     next_fetch := S (next_fetch s); fetched := u :: fetched s |}.

(** [if (resultUrl) { setResultData(null); fetchResult(resultUrl) }] *)
Definition effect (s : State) : State :=
  match Live.resultUrl (live s) with
  | Some (String c u) => fetchResult (String c u) (setResultData None s)
  | _ => s
  end.

(** After a render: the effect runs again if [resultUrl] is not what it
    was at the render before, [old]. *)
Definition commit (old : option string) (s : State) : State :=
  if decide (Live.resultUrl (live s) = old) then s else effect (cleanup s).

(** Resume the activation [a] of [fetchResult], pending under [q], with
    the settled value [v]; an error goes to [console.error] only. *)
Definition resume (q : nat) (a : Activation) (v : RSettled) (s : State) : option State :=
  let s0 := withFetching (delete q (fetching s)) s in
  match stage a, v with
  | AtFetch, RRejected _ => Some s0
  | AtFetch, RResponse c =>
      if http_ok c
      then Some (withFetching
                   (<[q := {| stage := AtJson; url := url a; aborted := aborted a |}]>
                      (fetching s)) s)
      else Some s0
  | AtJson, RRejected _ => Some s0
  | AtJson, RParsed d => if aborted a then Some s0 else Some (setResultData (Some d) s0)
  | _, _ => None
  end.

Inductive Event : Type :=
| Base (e : Live.Event)
| Result (q : nat) (v : RSettled).

Definition step (e : Event) (s : State) : option State :=
  match e with
  | Base e =>
      match Live.step e (live s) with
      | Some l => Some (commit (Live.resultUrl (live s)) (withLive l s))
      | None => None
      end
  | Result q v =>
      match fetching s !! q with
      | Some a => resume q a v s
      | None => None
      end
  end.

Fixpoint run (evs : list Event) (s : State) : option State :=
  match evs with
  | [] => Some s
  | e :: evs' =>
      match step e s with
      | Some s' => run evs' s'
      | None => None
      end
  end.

Definition reachable (s : State) : Prop := ∃ evs, run evs init = Some s.

(** The fetch of a result fails: the request is rejected, the response
    is an error, or its body does not parse. *)
Definition fetch_fails (a : Activation) (v : RSettled) : bool :=
  match stage a, v with
  | AtFetch, RRejected _ => true
  | AtFetch, RResponse c => negb (http_ok c)
  | AtJson, RRejected _ => true
  | _, _ => false
  end.

(** Every activation whose run of the effect has not been cleaned up
    fetches the address that [resultUrl] holds, the payload is empty
    while it is under way, and there is at most one of them. *)
Definition view_ok (s : State) : Prop :=
  ∀ q a, fetching s !! q = Some a → aborted a = false →
         Live.resultUrl (live s) = Some (url a)
         ∧ resultData s = None
         ∧ ∀ q' a', fetching s !! q' = Some a' → aborted a' = false → q' = q.

End WithData.

Arguments RRejected {Data} message.
Arguments RResponse {Data} code.
Arguments RParsed {Data} d.
Arguments init {Data}.
Arguments live {Data} s.
Arguments resultData {Data} s.
Arguments fetching {Data} s.
Arguments next_fetch {Data} s.
Arguments fetched {Data} s.
Arguments withLive {Data} l s.
Arguments setResultData {Data} v s.
Arguments withFetching {Data} m s.
Arguments cleanup {Data} s.
Arguments fetchResult {Data} u s.
Arguments effect {Data} s.
Arguments commit {Data} old s.
Arguments resume {Data} q a v s.
Arguments Base {Data} e.
Arguments Result {Data} q v.
Arguments step {Data} e s.
Arguments run {Data} evs s.
Arguments reachable {Data} s.
Arguments fetch_fails {Data} a v.
Arguments view_ok {Data} s.

(** A whole job of the live driver, the fetch of its result included;
    the payload is the fixed one of the simulated driver. *)
Definition until_payload : list (Event Sim.Payload) :=
  map Base LiveRuns.until_done
  ++ [Result 0 (RResponse 200); Result 0 (RParsed (Sim.mock "law.html" MEDIUM))].

Definition loading : State Sim.Payload :=
  default init (run (map Base LiveRuns.until_done ++ [Result 0 (RResponse 200)]) init).

Definition shown : State Sim.Payload := default init (run until_payload init).

End ResultView.

(** *** More vocabulary for the simulated driver *)

Module SimTerms.
Import Sim SimSpec.

(** Reachable by calls of the component's functions and firings of its
    timers, whether the page offers them or not. *)
Definition reachable (s : State) : Prop := ∃ evs, run evs init = Some s.

Definition is_completion (t : Timer) : bool :=
  match callback t with
  | CbToComplete _ _ => true
  | _ => false
  end.

(** Every armed timer has a handle already handed out and is listed in
    the ref of its kind. *)
Definition listed (s : State) : Prop :=
  ∀ h t, timers s !! h = Some t →
         h < next_timer s
         ∧ if is_tick t then h ∈ intervalsRef s else h ∈ timersRef s.

(** A job is under way: its completion timer and its interval are armed. *)
Definition job_pending (s : State) : Prop :=
  (∃ h t, timers s !! h = Some t ∧ is_completion t = true) ∧ ticking s.

(** Nothing of a job is left: no interval and no completion timer. *)
Definition nothing_pending (s : State) : Prop :=
  ∀ h t, timers s !! h = Some t → is_tick t = false ∧ is_completion t = false.

Definition one_completion (s : State) : Prop :=
  ∀ h h' t t', timers s !! h = Some t → timers s !! h' = Some t' →
               is_completion t = true → is_completion t' = true → h = h'.

Definition job_inv (s : State) : Prop :=
  listed s ∧ completions_ok s ∧ one_completion s
  ∧ (busy s = true → job_pending s)
  ∧ (busy s = false → nothing_pending s).

End SimTerms.

(** *** The order in which the browser fires timers *)

Module SimOrder.
Import Sim SimSpec SimTerms.

Definition is_toRunning (t : Timer) : bool :=
  match callback t with
  | CbToRunning => true
  | _ => false
  end.

(** Timer [h'] is a one-shot timer that was armed before timer [h]
    (handles are handed out in increasing order) with a delay no longer
    than [d]. *)
Definition runs_before (h : nat) (d : Z) (h' : nat) (t' : Timer) : bool :=
  (h' <? h) && negb (repeat t') && (delay t' <=? d)%Z.

(** The browser runs the callback of a timer only after the callbacks of
    the timers of the same window that were started before it with a
    timeout no longer than its own.  An interval starts anew each time it
    is re-armed, so only one-shot timers are taken to go first here; this
    allows every order the browser can produce, and excludes the firing
    of [toComplete] (9000 ms) while the [toRunning] (900 ms) of the same
    click is still armed. *)
Definition in_order (e : Event) (s : State) : bool :=
  match e with
  | Fire h _ =>
      match timers s !! h with
      | Some t =>
          bool_decide (map_Forall (fun h' t' => runs_before h (delay t) h' t' = false)
                                  (timers s))
      | None => true
      end
  | _ => true
  end.

(** A run in which every user action is one the page offers and every
    timer fires in the browser's order. *)
Fixpoint run_page (evs : list Event) (s : State) : option State :=
  match evs with
  | [] => Some s
  | e :: evs' =>
      if offered e s && in_order e s
      then match step e s with
           | Some s' => run_page evs' s'
           | None => None
           end
      else None
  end.

Definition page_reachable (s : State) : Prop := ∃ evs, run_page evs init = Some s.

(** The result location is set exactly when the status is COMPLETED, and
    while a [toRunning] timer is armed the job of its click is not
    completed: its completion timer, armed two handles later, is still
    armed. *)
Definition order_inv (s : State) : Prop :=
  (truthy (resultUrl s) = true ↔ status s = Some "COMPLETED")
  ∧ ∀ h t, timers s !! h = Some t → is_toRunning t = true →
           delay t = 900%Z ∧ repeat t = false ∧ status s ≠ Some "COMPLETED"
           ∧ ∃ t', timers s !! S (S h) = Some t' ∧ is_completion t' = true.

(** One submission run to completion, timers in the browser's order. *)
Definition to_completion : list Event := SimRuns.two_ticks ++ [Fire 3 "a1"].

End SimOrder.

(* ===================================================================== *)
(** * Part II: theorems                                                   *)
(* ===================================================================== *)

(** ** The validator *)

Section Validator.

Arguments Regex.eq_ci : simpl never.

Lemma eq_ci_lower (c x : ascii) :
  In c ["."; "h"; "t"; "m"; "l"; "x"]%char →
  Regex.eq_ci c x = Ascii.eqb (lower_char x) c.
Proof.
  intros Hc. repeat (destruct Hc as [<- | Hc]; [| ]); try contradiction;
    destruct x as [[] [] [] [] [] [] [] []]; reflexivity.
Qed.

Ltac pattern_chars :=
  repeat match goal with
  | |- context [Regex.eq_ci ?c ?x] =>
      rewrite (eq_ci_lower c x) by (cbn; tauto)
  end.

Ltac split_chars :=
  repeat match goal with
  | |- context [Ascii.eqb ?a ?b] => destruct (Ascii.eqb_spec a b)
  end.

(** Anchored at both ends, the pattern accepts the three extensions. *)
Lemma rmatch_allowed (t : string) :
  Regex.rmatch re_allowed t (fun _ => true)
  = String.eqb (lower t) ".htm" || String.eqb (lower t) ".html"
    || String.eqb (lower t) ".xml".
Proof.
  unfold re_allowed.
  do 6 (destruct t as [| ? t]; [cbn; pattern_chars; split_chars; try reflexivity; congruence |]).
  cbn. pattern_chars. split_chars; try reflexivity; congruence.
Qed.

Lemma append_empty (t : string) : "" +:+ t = t.
Proof. reflexivity. Qed.

Lemma append_String (c : ascii) (p t : string) :
  String c p +:+ t = String c (p +:+ t).
Proof. reflexivity. Qed.

Lemma test_spec (r : Regex.regex) (s : string) :
  Regex.test r s = true ↔
  ∃ p t, s = p +:+ t ∧ Regex.rmatch r t (fun _ => true) = true.
Proof.
  induction s as [| c s IH]; cbn [Regex.test].
  - rewrite orb_false_r. split.
    + intros H. exists "", "". auto.
    + intros (p & t & E & H). destruct p.
      * rewrite append_empty in E. subst t. exact H.
      * rewrite append_String in E. discriminate.
  - rewrite orb_true_iff, IH. split.
    + intros [H | (p & t & -> & H)].
      * exists "", (String c s). auto.
      * exists (String c p), t. auto.
    + intros (p & t & E & H). destruct p as [| c' p].
      * rewrite append_empty in E. subst t. auto.
      * rewrite append_String in E. injection E as -> ->. right. eauto.
Qed.

Lemma isAllowed_spec (f : option File.t) :
  isAllowed f = true ↔ ∃ f0, f = Some f0 ∧ has_allowed_ext (File.name f0).
Proof.
  destruct f as [f0 |]; cbn [isAllowed].
  - rewrite test_spec. unfold has_allowed_ext, ends_with_ci. split.
    + intros (p & t & E & H). exists f0. split; [reflexivity |].
      rewrite rmatch_allowed, !orb_true_iff, !String.eqb_eq in H.
      destruct H as [[H | H] | H]; eauto 6.
    + intros (f1 & [= <-] & H).
      assert (∃ p t, File.name f0 = p +:+ t ∧
                (lower t = ".htm" ∨ lower t = ".html" ∨ lower t = ".xml"))
        as (p & t & E & H') by (destruct H as [(p & t & ? & ?) | [(p & t & ? & ?) | (p & t & ? & ?)]]; eauto 7).
      exists p, t. split; [exact E |].
      rewrite rmatch_allowed, !orb_true_iff, !String.eqb_eq. tauto.
  - split; [discriminate | intros (? & [=] & _)].
Qed.

End Validator.

Example isAllowed_samples :
  map isAllowed [Some law_html; Some act_XML; Some brief_pdf; None]
  = [true; true; false; false].
Proof. reflexivity. Qed.

Example isAllowed_by_name :
  map (λ n, isAllowed (Some {| File.name := n; File.size := 0; File.type := "" |}))
      ["a.htm"; "A.HtMl"; ".xml"; "a.html.bak"; "a.xhtml"; "axml"; "a.htmlx"; "a.html "]
  = [true; true; true; false; false; false; false; false].
Proof. reflexivity. Qed.

(** ** Picking a file *)

(** C3: the validator accepts a candidate exactly when its name ends,
    case-insensitively, in .htm, .html or .xml; the answer depends on the
    name alone; a rejected pick leaves exactly the fixed message and
    touches neither the job nor the network nor a timer, in both drivers;
    an accepted pick selects the file and clears the message. *)
Theorem C3_validator_by_extension :
  (∀ f, isAllowed f = true ↔ ∃ f0, f = Some f0 ∧ has_allowed_ext (File.name f0))
  ∧ (∀ f g, File.name f = File.name g → isAllowed (Some f) = isAllowed (Some g))
  ∧ (∀ f, isAllowed f = false →
       (∀ s, Live.error (Live.pick f s) = Some "Only .html or .xml files are accepted."
             ∧ Live.jobId (Live.pick f s) = Live.jobId s
             ∧ Live.status (Live.pick f s) = Live.status s
             ∧ Live.sent (Live.pick f s) = Live.sent s
             ∧ Live.awaiting (Live.pick f s) = Live.awaiting s
             ∧ Live.timers (Live.pick f s) = Live.timers s)
       ∧ (∀ s, Sim.error (Sim.pick f s) = Some "Only .html or .xml files are accepted."
               ∧ Sim.jobId (Sim.pick f s) = Sim.jobId s
               ∧ Sim.status (Sim.pick f s) = Sim.status s
               ∧ Sim.timers (Sim.pick f s) = Sim.timers s))
  ∧ (∀ f, isAllowed f = true →
       (∀ s, Live.file (Live.pick f s) = f ∧ Live.error (Live.pick f s) = None)
       ∧ (∀ s, Sim.file (Sim.pick f s) = f ∧ Sim.error (Sim.pick f s) = None)).
Proof.
  split; [exact isAllowed_spec |].
  split; [intros f g E; cbn; now rewrite E |].
  split; intros f Hf; split; intros s; unfold Live.pick, Sim.pick; rewrite Hf; cbn; auto 10.
Qed.

Lemma C3_validator_by_extension_witness :
  isAllowed (Some brief_pdf) = false
  ∧ Live.error (Live.pick (Some brief_pdf) Live.init)
    = Some "Only .html or .xml files are accepted."
  ∧ isAllowed (Some act_XML) = true
  ∧ Sim.file (Sim.pick (Some act_XML) Sim.init) = Some act_XML.
Proof.
  destruct C3_validator_by_extension as (_ & _ & Hrej & Hacc).
  split; [reflexivity |].
  split; [exact (proj1 (proj1 (Hrej (Some brief_pdf) eq_refl) Live.init)) |].
  split; [reflexivity |].
  exact (proj1 (proj2 (Hacc (Some act_XML) eq_refl) Sim.init)).
Defined.

(** C10: a pick that fails validation, the empty pick included, resets
    the selected file to null besides setting the message, in both
    drivers, so that the next call of start finds no file: it sends
    nothing, arms no timer, assigns no job id, leaves status and the busy
    flag alone and asks for a file. *)
Theorem C10_rejected_pick_clears_file (f : option File.t) :
  isAllowed f = false →
  (∀ s, Live.file (Live.pick f s) = None
        ∧ Live.error (Live.pick f s) = Some msg_only_html_xml
        ∧ Live.sent (Live.start (Live.pick f s)) = Live.sent s
        ∧ Live.awaiting (Live.start (Live.pick f s)) = Live.awaiting s
        ∧ Live.jobId (Live.start (Live.pick f s)) = Live.jobId s
        ∧ Live.status (Live.start (Live.pick f s)) = Live.status s
        ∧ Live.busy (Live.start (Live.pick f s)) = Live.busy s
        ∧ Live.error (Live.start (Live.pick f s)) = Some msg_please_select)
  ∧ (∀ s now rnd,
        Sim.file (Sim.pick f s) = None
        ∧ Sim.error (Sim.pick f s) = Some msg_only_html_xml
        ∧ Sim.timers (Sim.start now rnd (Sim.pick f s)) = Sim.timers s
        ∧ Sim.jobId (Sim.start now rnd (Sim.pick f s)) = Sim.jobId s
        ∧ Sim.status (Sim.start now rnd (Sim.pick f s)) = Sim.status s
        ∧ Sim.busy (Sim.start now rnd (Sim.pick f s)) = Sim.busy s
        ∧ Sim.error (Sim.start now rnd (Sim.pick f s)) = Some msg_please_select).
Proof.
  intros Hf. split; intros s; [| intros now rnd];
    unfold Live.pick, Sim.pick; rewrite Hf; cbn; auto 10.
Qed.

Lemma C10_rejected_pick_clears_file_witness :
  isAllowed None = false
  ∧ Live.file (Live.pick None (Live.pick (Some law_html) Live.init)) = None
  ∧ Sim.file (Sim.pick (Some brief_pdf) (Sim.pick (Some law_html) Sim.init)) = None.
Proof.
  split; [reflexivity |].
  split.
  - exact (proj1 (proj1 (C10_rejected_pick_clears_file None eq_refl)
                    (Live.pick (Some law_html) Live.init))).
  - exact (proj1 (proj2 (C10_rejected_pick_clears_file (Some brief_pdf) eq_refl)
                    (Sim.pick (Some law_html) Sim.init) 0%Z "")).
Defined.

(** ** The live driver *)

Module LiveFacts.
Import Live LiveSpec.

Example contentTypeOf_samples :
  map contentTypeOf [law_html; act_XML;
                     {| File.name := "old.htm"; File.size := 1; File.type := "" |}]
  = ["text/html"; "application/xml"; "text/html"].
Proof. reflexivity. Qed.

(** Scenario 1 of the specification, up to the reply that completes the
    job. *)
Example scenario_completed :
  status LiveRuns.done = Some "COMPLETED"
  ∧ resultUrl LiveRuns.done = Some "https://bucket/result/j-1.json"
  ∧ busy LiveRuns.done = false
  ∧ timers LiveRuns.done = ∅
  ∧ rev (sent LiveRuns.done)
    = [PostJobs "MEDIUM" "text/html" "law.html";
       PutUpload "https://bucket/upload/j-1" "text/html" law_html;
       PostStart "j-1"; GetJob "j-1"; GetJob "j-1"].
Proof.
  split; [vm_compute; reflexivity |]. split; [vm_compute; reflexivity |].
  split; [vm_compute; reflexivity |]. split; vm_compute; reflexivity.
Qed.

Lemma run_app (evs1 evs2 : list Event) (s : State) :
  run (evs1 ++ evs2) s = match run evs1 s with
                         | Some s' => run evs2 s'
                         | None => None
                         end.
Proof.
  revert s. induction evs1 as [| e evs1 IH]; intros s; cbn; [reflexivity |].
  destruct (step e s); [apply IH | reflexivity].
Qed.

Lemma reachable_step (e : Event) (s s' : State) :
  reachable s → step e s = Some s' → reachable s'.
Proof.
  intros [evs H] Hs. exists (evs ++ [e]). rewrite run_app, H. cbn. now rewrite Hs.
Qed.

Lemma run_ui_run (evs : list Event) (s s' : State) :
  run_ui evs s = Some s' → run evs s = Some s'.
Proof.
  revert s. induction evs as [| e evs IH]; intros s; cbn; [auto |].
  destruct (offered e s); [| discriminate].
  destruct (step e s); [apply IH | discriminate].
Qed.

(** Timers that survive, with [pollRef] unchanged, stay in order. *)
Lemma timers_ok_subset (s s' : State) :
  (∀ h t, timers s' !! h = Some t → timers s !! h = Some t) →
  pollRef s' = pollRef s → timers_ok s → timers_ok s'.
Proof.
  intros Hsub Hp Hok h t Hl. rewrite Hp. apply Hok, Hsub, Hl.
Qed.

Lemma timers_ok_frame (s s' : State) :
  timers s' = timers s → pollRef s' = pollRef s → timers_ok s → timers_ok s'.
Proof.
  intros Ht. apply timers_ok_subset. now rewrite Ht.
Qed.

Lemma timers_ok_clear (h : option nat) (s : State) :
  timers_ok s → timers_ok (clearInterval h s).
Proof.
  destruct h as [h |]; [| auto]. apply timers_ok_subset; [| reflexivity].
  intros h' t. cbn. rewrite lookup_delete. case_decide; [discriminate | auto].
Qed.

Lemma timers_ok_grace (jid : option string) (s : State) :
  timers_ok s → timers_ok (snd (setTimer (grace_timer jid) s)).
Proof.
  intros Hok h t. cbn. rewrite lookup_insert. case_decide.
  - intros [= <-]. right. eauto.
  - apply Hok.
Qed.

Lemma timers_ok_beginPolling (id : option string) (s : State) :
  timers_ok s → timers_ok (beginPolling id s).
Proof.
  intros Hok h t. unfold beginPolling. cbn. rewrite lookup_insert. case_decide.
  - intros [= <-]. left. exists id. subst h. auto.
  - destruct (pollRef s) as [h0 |] eqn:Hp; cbn.
    + rewrite lookup_delete. case_decide; [discriminate |].
      intros Hl. destruct (Hok h t Hl) as [(id' & -> & Hh) | ?]; [| auto].
      congruence.
    + intros Hl. destruct (Hok h t Hl) as [(id' & -> & Hh) | ?]; [| auto].
      congruence.
Qed.

Lemma timers_ok_after_getJob (c : Caller) (data : option Json) (s : State) :
  timers_ok s → timers_ok (after_getJob c data s).
Proof.
  intros Hok.
  assert (timers_ok (setBusy false (clearInterval (pollRef s) s))) as Hstop.
  { apply (timers_ok_subset (clearInterval (pollRef s) s)); auto.
    now apply timers_ok_clear. }
  destruct c; [exact Hok |]. cbn.
  destruct data as [d |]; [| exact Hstop].
  destruct (_ || _); [exact Hstop | exact Hok].
Qed.

Lemma step_timers_ok (e : Event) (s s' : State) :
  timers_ok s → step e s = Some s' → timers_ok s'.
Proof.
  intros Hok Hs. destruct e as [f | r | | | h | p v]; cbn in Hs.
  - injection Hs as <-. revert Hok. apply timers_ok_subset; unfold pick;
      destruct (negb _); auto.
  - injection Hs as <-. exact Hok.
  - injection Hs as <-. revert Hok. apply timers_ok_subset; unfold start;
      destruct (file s); auto.
  - injection Hs as <-.
    apply (timers_ok_subset (clearInterval (pollRef s) s)); auto.
    now apply timers_ok_clear.
  - destruct (timers s !! h) as [t |] eqn:Ht; [| discriminate].
    injection Hs as <-. revert Hok. apply timers_ok_subset.
    + intros h' t'. destruct (callback t), (repeat t); cbn; auto;
        rewrite lookup_delete; (case_decide; [discriminate | auto]).
    + destruct (callback t), (repeat t); reflexivity.
  - destruct (awaiting s !! p) as [k |] eqn:Hk; [| discriminate].
    set (s0 := withAwaiting _ _ s) in Hs.
    assert (timers_ok s0) as Hok0 by exact Hok.
    clearbody s0.
    destruct k, v; unfold resume in Hs; try discriminate;
      repeat match type of Hs with
             | context [if ?b then _ else _] => destruct b
             end;
      injection Hs as <-;
      lazymatch goal with
      | |- timers_ok s0 => exact Hok0
      | |- timers_ok (after_getJob _ _ _) =>
          apply timers_ok_after_getJob; exact Hok0
      | |- timers_ok (beginPolling _ _) =>
          apply timers_ok_beginPolling; exact Hok0
      | |- timers_ok (withTimers _ _ _) =>
          apply (timers_ok_grace _ s0 Hok0)
      | |- _ => apply (timers_ok_frame s0); [reflexivity | reflexivity | exact Hok0]
      end.
Qed.

Lemma run_timers_ok (evs : list Event) (s s' : State) :
  timers_ok s → run evs s = Some s' → timers_ok s'.
Proof.
  revert s. induction evs as [| e evs IH]; intros s Hok; cbn.
  - now intros [= <-].
  - destruct (step e s) as [s1 |] eqn:Hs; [| discriminate].
    apply IH. eapply step_timers_ok; eauto.
Qed.

Lemma reachable_timers_ok (s : State) : reachable s → timers_ok s.
Proof.
  intros [evs H]. eapply run_timers_ok; [| exact H].
  intros h t. cbn. now rewrite lookup_empty.
Qed.

Lemma quiet_step (e : Event) (s s' : State) :
  quiet s → not_start e → step e s = Some s' → quiet s' ∧ polls s' = polls s.
Proof.
  intros [Ha Ht] He Hs. destruct e as [f | r | | | h | p v]; cbn in Hs.
  - injection Hs as <-. unfold pick. destruct (negb _); split; try split; auto.
  - injection Hs as <-. split; try split; auto.
  - now destruct He.
  - injection Hs as <-. unfold cancelPolling, clearInterval.
    destruct (pollRef s); split; try split; cbn; auto.
    intros h. rewrite lookup_delete. now case_decide.
  - now rewrite Ht in Hs.
  - destruct (awaiting s !! p) as [k |] eqn:Hk; [| discriminate].
    pose proof (Ha p k Hk) as Hof.
    set (s0 := withAwaiting _ _ s) in Hs.
    assert (quiet s0) as [Ha0 Ht0].
    { split; [| exact Ht]. intros p' k'. cbn. rewrite lookup_delete.
      case_decide; [discriminate | apply Ha]. }
    assert (polls s0 = polls s) as <- by reflexivity.
    assert (∀ id c, quiet (suspend (AwGetJson c id) s0)) as Hsusp.
    { intros id c. split; [| exact Ht0]. intros p' k'. cbn. rewrite lookup_insert.
      case_decide; [now intros [= <-] | apply Ha0]. }
    assert (∀ c data s1, timers s1 = timers s0 → awaiting s1 = awaiting s0 →
              sent s1 = sent s0 →
              quiet (after_getJob c data s1)
              ∧ polls (after_getJob c data s1) = polls s0) as Hget.
    { intros c data s1 E1 E2 E3.
      assert (quiet (setBusy false (clearInterval (pollRef s1) s1))
              ∧ polls (setBusy false (clearInterval (pollRef s1) s1)) = polls s0) as Hstop.
      { unfold quiet, polls, clearInterval. destruct (pollRef s1); cbn;
          rewrite ?E1, ?E2, ?E3; (split; [split; [exact Ha0 |] | reflexivity]);
          [| exact Ht0].
        intros h. rewrite lookup_delete. now case_decide. }
      assert (quiet s1 ∧ polls s1 = polls s0) as Hkeep.
      { unfold quiet, polls. rewrite E1, E2, E3. auto. }
      destruct c; [exact Hkeep |]. cbn.
      destruct data as [d |]; [| exact Hstop].
      destruct (_ || _); [exact Hstop | exact Hkeep]. }
    destruct k; try discriminate Hof; destruct v; unfold resume in Hs; try discriminate;
      repeat match type of Hs with
             | context [if ?b then _ else _] => destruct b
             end;
      injection Hs as <-;
      lazymatch goal with
      | |- quiet (after_getJob _ _ _) ∧ _ => apply Hget; reflexivity
      | |- quiet (suspend _ _) ∧ _ => split; [apply Hsusp | reflexivity]
      | |- _ => split; [split; assumption | reflexivity]
      end.
Qed.

Lemma quiet_run (evs : list Event) (s s' : State) :
  quiet s → Forall not_start evs → run evs s = Some s' → polls s' = polls s.
Proof.
  revert s. induction evs as [| e evs IH]; intros s Hq Hev; cbn.
  - now intros [= <-].
  - destruct (step e s) as [s1 |] eqn:Hs; [| discriminate].
    inversion Hev as [| ? ? He Hevs]; subst.
    destruct (quiet_step e s s1 Hq He Hs) as [Hq1 <-]. now apply IH.
Qed.

Lemma cancel_quiet (s : State) :
  timers_ok s → submission_over s → quiet (cancelPolling s).
Proof.
  intros Hok [Ha Ht]. split.
  { intros p k. unfold cancelPolling, clearInterval. destruct (pollRef s); apply Ha. }
  intros h.
  destruct (timers (cancelPolling s) !! h) as [t |] eqn:Hl; [exfalso | reflexivity].
  unfold cancelPolling, clearInterval in Hl.
  destruct (pollRef s) as [h0 |] eqn:Hp; cbn in Hl.
  - rewrite lookup_delete in Hl. case_decide; [discriminate |].
    pose proof (Ht h t Hl) as Hpoll.
    destruct (Hok h t Hl) as [(id & -> & Hh) | (jid & ->)]; [congruence | discriminate].
  - pose proof (Ht h t Hl) as Hpoll.
    destruct (Hok h t Hl) as [(id & -> & Hh) | (jid & ->)]; [congruence | discriminate].
Qed.

(** Clearing the interval in [pollRef] leaves no polling interval. *)
Lemma stop_polling (s : State) :
  timers_ok s →
  no_poll_timer (setBusy false (clearInterval (pollRef s) s))
  ∧ busy (setBusy false (clearInterval (pollRef s) s)) = false
  ∧ status (setBusy false (clearInterval (pollRef s) s)) = status s
  ∧ resultUrl (setBusy false (clearInterval (pollRef s) s)) = resultUrl s
  ∧ error (setBusy false (clearInterval (pollRef s) s)) = error s
  ∧ sent (setBusy false (clearInterval (pollRef s) s)) = sent s.
Proof.
  intros Hok. unfold no_poll_timer, clearInterval.
  destruct (pollRef s) as [h0 |] eqn:Hp; cbn; (split; [| auto 10]); intros h t.
  - rewrite lookup_delete. case_decide; [discriminate |]. intros Hl.
    destruct (Hok h t Hl) as [(id & -> & Hh) | (jid & ->)]; [congruence | reflexivity].
  - intros Hl.
    destruct (Hok h t Hl) as [(id & -> & Hh) | (jid & ->)]; [congruence | reflexivity].
Qed.

Lemma settle_eq (p : nat) (v : Settled) (k : Await) (s : State) :
  awaiting s !! p = Some k →
  step (Settle p v) s = resume k v (withAwaiting (delete p (awaiting s)) (next_await s) s).
Proof. intros H. cbn. now rewrite H. Qed.

Lemma tick_not_found (s : State) (p : nat) (id : option string) :
  timers_ok s →
  awaiting s !! p = Some (AwGet FromTick id) →
  ∃ s', step (Settle p (Response 404)) s = Some s'
        ∧ no_poll_timer s' ∧ busy s' = false ∧ status s' = status s
        ∧ resultUrl s' = resultUrl s ∧ error s' = error s ∧ sent s' = sent s.
Proof.
  intros Hok Hk. rewrite (settle_eq _ _ _ _ Hk).
  set (s0 := withAwaiting _ _ s).
  exists (setBusy false (clearInterval (pollRef s0) s0)). split; [reflexivity |].
  apply (stop_polling s0). exact Hok.
Qed.

(** C2 (as amended): once the submission sequence is over, so that no
    activation of start is suspended at a request or in the grace delay,
    cancelPolling() ends the status queries: whatever happens afterwards,
    short of a new click on start, no further query is sent. *)
Theorem C2_cancel_after_submission (s : State) :
  reachable s → submission_over s → cancel_silences s.
Proof.
  intros Hr Hover evs s' Hev Hrun.
  rewrite (quiet_run evs (cancelPolling s) s'); auto.
  - unfold polls, cancelPolling, clearInterval. now destruct (pollRef s).
  - apply cancel_quiet; [apply reachable_timers_ok |]; assumption.
Qed.

Lemma C2_cancel_after_submission_witness :
  reachable LiveRuns.polling ∧ submission_over LiveRuns.polling
  ∧ cancel_silences LiveRuns.polling.
Proof.
  assert (reachable LiveRuns.polling) as Hr.
  { exists (LiveRuns.until_grace ++ LiveRuns.grace_to_tick). vm_compute. reflexivity. }
  assert (submission_over LiveRuns.polling) as Ho.
  { split; apply (bool_decide_unpack _); vm_compute; exact I. }
  exact (conj Hr (conj Ho (C2_cancel_after_submission LiveRuns.polling Hr Ho))).
Defined.

(** C2 (as stated) fails: the cancel button is offered during the grace
    delay of a submission, and after cancelPolling() there the suspended
    start still goes on to call beginPolling, which sends status queries. *)
Lemma C2_cancel_during_grace_delay :
  run_ui LiveRuns.until_grace init = Some LiveRuns.in_grace
  ∧ offered Cancel LiveRuns.in_grace = true
  ∧ ¬ cancel_silences LiveRuns.in_grace.
Proof.
  split; [vm_compute; reflexivity |]. split; [reflexivity |].
  intros H.
  specialize (H LiveRuns.grace_to_tick
                (default init (run LiveRuns.grace_to_tick (cancelPolling LiveRuns.in_grace)))).
  assert (Forall not_start LiveRuns.grace_to_tick) as Hev
    by (repeat constructor; discriminate).
  specialize (H Hev). vm_compute in H. specialize (H eq_refl). discriminate H.
Qed.

(** C4 (as amended): a tick whose status query succeeds stores the
    reported status, and the result location when the reply carries a
    non-empty one; it stops the polling timer and clears the busy flag
    exactly when the reply carries a non-empty result_url or reports
    FAILED, and otherwise leaves timer, handle and busy flag as they are.
    A tick whose query is answered 404 stops the timer and clears the busy
    flag without storing anything. *)
Theorem C4_tick_updates_and_stops (s : State) (p : nat) (id : option string) :
  reachable s →
  (∀ d, awaiting s !! p = Some (AwGetJson FromTick id) →
        ∃ s', step (Settle p (Parsed d)) s = Some s'
              ∧ status s' = j_status d
              ∧ resultUrl s' = (if truthy (result_url d) then result_url d else resultUrl s)
              ∧ (if truthy (result_url d) || bool_decide (j_status d = Some "FAILED")
                 then no_poll_timer s' ∧ busy s' = false
                 else timers s' = timers s ∧ pollRef s' = pollRef s ∧ busy s' = busy s))
  ∧ (awaiting s !! p = Some (AwGet FromTick id) →
     ∃ s', step (Settle p (Response 404)) s = Some s'
           ∧ no_poll_timer s' ∧ busy s' = false
           ∧ status s' = status s ∧ resultUrl s' = resultUrl s).
Proof.
  intros Hr. pose proof (reachable_timers_ok s Hr) as Hok. split.
  - intros d Hk. rewrite (settle_eq _ _ _ _ Hk).
    set (s0 := withAwaiting _ _ s).
    eexists. split; [reflexivity |]. unfold after_getJob.
    destruct (truthy (result_url d)) eqn:Hu; cbn [orb].
    + destruct (stop_polling (setResultUrl (result_url d) (setStatus (j_status d) s0)))
        as (H1 & H2 & H3 & H4 & _); [exact Hok | auto].
    + destruct (bool_decide _).
      * destruct (stop_polling (setStatus (j_status d) s0))
          as (H1 & H2 & H3 & H4 & _); [exact Hok | auto].
      * auto 10.
  - intros Hk. destruct (tick_not_found s p id Hok Hk) as (s' & ? & ? & ? & ? & ? & _).
    exists s'. auto.
Qed.

Lemma C4_tick_updates_and_stops_witness :
  reachable LiveRuns.at_reply
  ∧ ∃ s', step (Settle 6 (Parsed LiveRuns.completed_with_url)) LiveRuns.at_reply = Some s'
          ∧ status s' = Some "COMPLETED"
          ∧ resultUrl s' = Some "https://bucket/result/j-1.json"
          ∧ no_poll_timer s' ∧ busy s' = false.
Proof.
  assert (reachable LiveRuns.at_reply) as Hr.
  { exists LiveRuns.until_reply. vm_compute. reflexivity. }
  split; [exact Hr |].
  destruct (proj1 (C4_tick_updates_and_stops LiveRuns.at_reply 6 (Some "j-1") Hr)
              LiveRuns.completed_with_url) as (s' & Hs & H1 & H2 & H3 & H4).
  { vm_compute. reflexivity. }
  exists s'. auto.
Defined.

(** C4 (as stated) fails in both directions: a reply that reports
    COMPLETED without a result_url leaves the timer armed and the busy
    flag set, and a reply that reports RUNNING with a result_url stops the
    timer and clears the busy flag. *)
Lemma C4_stop_follows_result_url :
  run_ui LiveRuns.until_reply init = Some LiveRuns.at_reply
  ∧ awaiting LiveRuns.at_reply !! 6 = Some (AwGetJson FromTick (Some "j-1"))
  ∧ step (Settle 6 (Parsed LiveRuns.completed_without_url)) LiveRuns.at_reply
    = Some LiveRuns.after_completed_without_url
  ∧ terminal (status LiveRuns.after_completed_without_url)
  ∧ timers LiveRuns.after_completed_without_url !! 2 = Some (poll_timer (Some "j-1"))
  ∧ busy LiveRuns.after_completed_without_url = true
  ∧ step (Settle 6 (Parsed LiveRuns.running_with_url)) LiveRuns.at_reply
    = Some LiveRuns.after_running_with_url
  ∧ ¬ terminal (status LiveRuns.after_running_with_url)
  ∧ timers LiveRuns.after_running_with_url = ∅
  ∧ busy LiveRuns.after_running_with_url = false.
Proof.
  split; [vm_compute; reflexivity |]. split; [vm_compute; reflexivity |].
  split; [vm_compute; reflexivity |]. split; [left; vm_compute; reflexivity |].
  split; [vm_compute; reflexivity |]. split; [vm_compute; reflexivity |].
  split; [vm_compute; reflexivity |].
  split; [intros [H | H]; vm_compute in H; discriminate H |].
  split; vm_compute; reflexivity.
Qed.

(** C5: a tick whose status query fails (rejected request, error
    response other than 404, unreadable body) changes nothing but the
    bookkeeping of the settled promise: the timers, among them the polling
    interval with its period of 2500 ms, the handle, status, result
    location, busy flag and the error shown to the user stay as they were,
    and nothing is sent. *)
Theorem C5_failed_tick_is_skipped (s : State) (p : nat) (k : Await) (v : Settled) :
  reachable s →
  awaiting s !! p = Some k →
  query_fails k v = true →
  ∃ s', step (Settle p v) s = Some s'
        ∧ timers s' = timers s ∧ pollRef s' = pollRef s
        ∧ error s' = error s ∧ status s' = status s ∧ resultUrl s' = resultUrl s
        ∧ busy s' = busy s ∧ sent s' = sent s
        ∧ map_Forall (λ _ t, is_poll_timer t = true → delay t = 2500 ∧ repeat t = true)
                     (timers s').
Proof.
  intros Hr Hk Hf. pose proof (reachable_timers_ok s Hr) as Hok.
  rewrite (settle_eq _ _ _ _ Hk).
  assert (map_Forall (λ _ t, is_poll_timer t = true → delay t = 2500 ∧ repeat t = true)
                     (timers s)) as Hper.
  { intros h t Hl Hp. destruct (Hok h t Hl) as [(i & -> & _) | (j & ->)];
      [auto | discriminate]. }
  destruct k as [| | | | | [] id | [] id]; try discriminate Hf;
    destruct v as [m | code | d | t]; try discriminate Hf; unfold resume.
  - eexists. split; [reflexivity |]. auto 10.
  - cbn in Hf. apply andb_true_iff in Hf as [H1 H2].
    apply negb_true_iff in H1, H2. rewrite H1, H2.
    eexists. split; [reflexivity |]. auto 10.
  - eexists. split; [reflexivity |]. auto 10.
Qed.

Lemma C5_failed_tick_is_skipped_witness :
  reachable LiveRuns.polling
  ∧ awaiting LiveRuns.polling !! 5 = Some (AwGet FromTick (Some "j-1"))
  ∧ ∃ s', step (Settle 5 (Response 503)) LiveRuns.polling = Some s'
          ∧ timers s' = timers LiveRuns.polling ∧ error s' = error LiveRuns.polling.
Proof.
  assert (reachable LiveRuns.polling) as Hr.
  { exists (LiveRuns.until_grace ++ LiveRuns.grace_to_tick). vm_compute. reflexivity. }
  assert (awaiting LiveRuns.polling !! 5 = Some (AwGet FromTick (Some "j-1"))) as Hk
    by (vm_compute; reflexivity).
  split; [exact Hr |]. split; [exact Hk |].
  destruct (C5_failed_tick_is_skipped LiveRuns.polling 5 _ (Response 503) Hr Hk eq_refl)
    as (s' & Hs & H1 & _ & H2 & _).
  exists s'. auto.
Defined.

(** C6: a tick whose status query is answered 404 halts polling: no
    polling interval stays armed and the busy flag is cleared, while the
    error shown to the user, the status and the result location keep the
    values they had before the response, and nothing is sent. *)
Theorem C6_not_found_halts_polling (s : State) (p : nat) (id : option string) :
  reachable s →
  awaiting s !! p = Some (AwGet FromTick id) →
  ∃ s', step (Settle p (Response 404)) s = Some s'
        ∧ no_poll_timer s' ∧ busy s' = false
        ∧ status s' = status s ∧ resultUrl s' = resultUrl s
        ∧ error s' = error s ∧ sent s' = sent s.
Proof.
  intros Hr Hk. apply (tick_not_found s p id); [apply reachable_timers_ok |]; assumption.
Qed.

Lemma C6_not_found_halts_polling_witness :
  reachable LiveRuns.polling
  ∧ awaiting LiveRuns.polling !! 5 = Some (AwGet FromTick (Some "j-1"))
  ∧ ∃ s', step (Settle 5 (Response 404)) LiveRuns.polling = Some s'
          ∧ busy s' = false ∧ status s' = Some "RUNNING" ∧ error s' = None.
Proof.
  assert (reachable LiveRuns.polling) as Hr.
  { exists (LiveRuns.until_grace ++ LiveRuns.grace_to_tick). vm_compute. reflexivity. }
  assert (awaiting LiveRuns.polling !! 5 = Some (AwGet FromTick (Some "j-1"))) as Hk
    by (vm_compute; reflexivity).
  split; [exact Hr |]. split; [exact Hk |].
  destruct (C6_not_found_halts_polling LiveRuns.polling 5 _ Hr Hk)
    as (s' & Hs & _ & H1 & H2 & _ & H3 & _).
  exists s'. split; [exact Hs |]. split; [exact H1 |]. split.
  - rewrite H2. vm_compute. reflexivity.
  - rewrite H3. vm_compute. reflexivity.
Defined.

(** All the ways a step can go, each with its resulting state spelled
    out. *)
Ltac step_cases Hs :=
  lazymatch type of Hs with
  | step ?e ?s = Some ?s' =>
      destruct e as [?f | ?r | | | ?h | ?p ?v]; cbn [step] in Hs;
      [ injection Hs as <-
      | injection Hs as <-
      | injection Hs as <-
      | injection Hs as <-
      | let t := fresh "t" in
        let Ht := fresh "Ht" in
        destruct (timers s !! h) as [t |] eqn:Ht; [injection Hs as <- | discriminate Hs]
      | let k := fresh "k" in
        let Hk := fresh "Hk" in
        destruct (awaiting s !! p) as [k |] eqn:Hk; [| discriminate Hs];
        destruct k, v; unfold resume in Hs; try discriminate Hs;
        repeat match type of Hs with
               | context [if ?b then _ else _] => destruct b eqn:?
               end;
        injection Hs as <- ]
  end.

Ltac unfold_handlers :=
  unfold pick, start, cancelPolling, beginPolling, after_getJob, run_callback,
    getJob, fetch, suspend, fail, setTimer, clearInterval in *.

(** A step sends at most one request, and a start call is sent only by
    the firing of a grace timer. *)
Lemma step_sends (e : Event) (s s' : State) :
  step e s = Some s' →
  sent s' = sent s
  ∨ ∃ r, sent s' = r :: sent s
         ∧ ∀ j, r = PostStart j →
                ∃ h t jid, e = Fire h ∧ timers s !! h = Some t
                           ∧ callback t = CbGrace jid ∧ j = js_str jid.
Proof.
  intros Hs. step_cases Hs; unfold_handlers;
    repeat case_match; cbn; try (left; reflexivity);
    right; eexists; (split; [reflexivity |]); intros j [=]; eauto 10.
Qed.

(** C7: a successful upload sends nothing and arms a one-shot timer of
    800 ms; the start call is sent by the firing of such a timer and by
    nothing else; and the activation that awaits the start call goes to
    RUNNING and begins polling exactly when the response code is 202,
    while any other code sets FAILED, clears the busy flag and reports the
    failure. *)
Theorem C7_grace_delay_and_202 (s : State) :
  reachable s →
  (∀ p jid c, awaiting s !! p = Some (AwUpload jid) → http_ok c = true →
     ∃ s', step (Settle p (Response c)) s = Some s'
           ∧ sent s' = sent s
           ∧ timers s' = <[next_timer s := grace_timer jid]> (timers s))
  ∧ (∀ h jid, timers s !! h = Some (grace_timer jid) →
       ∃ s', step (Fire h) s = Some s'
             ∧ sent s' = PostStart (js_str jid) :: sent s
             ∧ timers s' !! h = None)
  ∧ (∀ e s' j, step e s = Some s' → sent s' = PostStart j :: sent s →
       ∃ h jid, e = Fire h ∧ timers s !! h = Some (grace_timer jid) ∧ j = js_str jid)
  ∧ (∀ p jid c, awaiting s !! p = Some (AwStart jid) →
       ∃ s', step (Settle p (Response c)) s = Some s'
             ∧ (status s' = Some "RUNNING" ↔ c = 202)
             ∧ (c = 202 →
                busy s' = busy s ∧ error s' = error s
                ∧ pollRef s' = Some (next_timer s)
                ∧ timers s' !! next_timer s = Some (poll_timer jid)
                ∧ sent s' = GetJob (js_str jid) :: sent s)
             ∧ (c ≠ 202 →
                status s' = Some "FAILED" ∧ busy s' = false
                ∧ error s' = Some "Failed to start job"
                ∧ sent s' = sent s ∧ timers s' = timers s)).
Proof.
  intros Hr. pose proof (reachable_timers_ok s Hr) as Hok.
  split; [| split; [| split]].
  - intros p jid c Hk Hc. rewrite (settle_eq _ _ _ _ Hk). unfold resume. rewrite Hc.
    eexists. split; [reflexivity |]. split; reflexivity.
  - intros h jid Ht. cbn [step]. rewrite Ht. eexists. split; [reflexivity |].
    cbn. split; [reflexivity |]. apply lookup_delete_eq.
  - intros e s' j Hs Hsent. destruct (step_sends e s s' Hs) as [E | (r & E & Hr')].
    + rewrite E in Hsent. apply (f_equal length) in Hsent. cbn in Hsent. lia.
    + rewrite E in Hsent. injection Hsent as ->.
      destruct (Hr' j eq_refl) as (h & t & jid & -> & Ht & Hcb & ->).
      exists h, jid. split; [reflexivity |]. split; [| reflexivity].
      destruct (Hok h t Ht) as [(id & -> & _) | (jid' & ->)]; [discriminate Hcb |].
      cbn in Hcb. now injection Hcb as ->.
  - intros p jid c Hk. rewrite (settle_eq _ _ _ _ Hk). unfold resume.
    destruct (bool_decide (c = 202)) eqn:Hc.
    + apply bool_decide_eq_true in Hc. eexists. split; [reflexivity |].
      unfold beginPolling, clearInterval. cbn. destruct (pollRef s); cbn;
        (split; [split; auto |]); (split; [| now intros []]); intros _;
        rewrite lookup_insert_eq; auto.
    + apply bool_decide_eq_false in Hc. eexists. split; [reflexivity |]. cbn.
      split; [split; [discriminate | now intros ?] |].
      split; [now intros ? |]. auto.
Qed.

Lemma C7_grace_delay_and_202_witness :
  reachable LiveRuns.in_grace
  ∧ ∃ s', step (Fire 1) LiveRuns.in_grace = Some s'
          ∧ sent s' = PostStart "j-1" :: sent LiveRuns.in_grace.
Proof.
  assert (reachable LiveRuns.in_grace) as Hr.
  { exists LiveRuns.until_grace. vm_compute. reflexivity. }
  split; [exact Hr |].
  destruct (proj1 (proj2 (C7_grace_delay_and_202 LiveRuns.in_grace Hr)) 1 (Some "j-1"))
    as (s' & Hs & Hsent & _).
  { vm_compute. reflexivity. }
  exists s'. auto.
Defined.

(** In the live driver, COMPLETED and a non-empty result location come
    from the reply to a status query and from nowhere else. *)
Lemma live_completed_by_reply (e : Event) (s s' : State) :
  step e s = Some s' →
  (status s' = Some "COMPLETED" → status s' ≠ status s →
   ∃ p d, e = Settle p (Parsed d) ∧ j_status d = Some "COMPLETED"
          ∧ resultUrl s' = if truthy (result_url d) then result_url d else resultUrl s)
  ∧ (truthy (resultUrl s') = true → resultUrl s' ≠ resultUrl s →
     ∃ p d, e = Settle p (Parsed d) ∧ result_url d = resultUrl s'
            ∧ status s' = j_status d).
Proof.
  intros Hs. step_cases Hs; unfold_handlers;
    repeat case_match; cbn; split; intros Hnew Hchg;
    try discriminate Hnew; try (now destruct Hchg); eauto 10;
    lazymatch goal with
    | Hu : truthy (result_url ?d) = _ |- ∃ _ _, Settle ?p _ = _ ∧ _ =>
        exists p, d; rewrite Hu; auto
    end.
Qed.

End LiveFacts.

(** ** The simulated driver *)

Module SimFacts.
Import Sim SimSpec.

(** *** Job ids *)

Example toString36_samples :
  map toString36 [0; 35; 36; -37; 1762041600000]%Z = ["0"; "z"; "10"; "-11"; "mhgy2o00"].
Proof. reflexivity. Qed.

Example mkJobId_sample : mkJobId 1762041600000 "0.k3f9x2p7c1m" = "JOB-mhgy2o00-k3f9x2".
Proof. reflexivity. Qed.

Example mkJobId_short_random : mkJobId 1762041600000 "0.5" = "JOB-mhgy2o00-5".
Proof. reflexivity. Qed.

Lemma digit36_code (d : N) :
  (d < 36)%N →
  N_of_ascii (digit36 d) = if (d <? 10)%N then (48 + d)%N else (87 + d)%N.
Proof.
  intros Hd. unfold digit36. destruct (d <? 10)%N;
    apply N_ascii_embedding; lia.
Qed.

Lemma digit36_not_dash (d : N) : (d < 36)%N → Ascii.eqb (digit36 d) "-" = false.
Proof.
  intros Hd. apply Ascii.eqb_neq. intros E.
  apply (f_equal N_of_ascii) in E. rewrite digit36_code in E by exact Hd.
  change (N_of_ascii "-") with 45%N in E. destruct (d <? 10)%N; lia.
Qed.

Lemma digit_val_digit36 (d : N) : (d < 36)%N → digit_val (digit36 d) = d.
Proof.
  intros Hd. unfold digit_val. rewrite digit36_code by exact Hd.
  destruct (N.ltb_spec d 10).
  - replace (48 + d <? 58)%N with true by (symmetry; apply N.ltb_lt; lia). lia.
  - replace (87 + d <? 58)%N with false by (symmetry; apply N.ltb_ge; lia). lia.
Qed.

Lemma digits36_dash_free (fuel : nat) (n : N) (acc : string) :
  dash_free acc = true → dash_free (digits36 fuel n acc) = true.
Proof.
  revert n acc. induction fuel as [| fuel IH]; intros n acc Hacc; cbn; [exact Hacc |].
  assert (dash_free (String (digit36 (n mod 36)) acc) = true) as Hacc'.
  { cbn. rewrite digit36_not_dash by (apply N.mod_lt; lia). exact Hacc. }
  destruct (n / 36 =? 0)%N; [exact Hacc' | now apply IH].
Qed.

Lemma digits36_nonempty (fuel : nat) (n : N) (acc : string) :
  ∃ c d, digits36 (S fuel) n acc = String c d.
Proof.
  revert n acc. induction fuel as [| fuel IH]; intros n acc.
  - cbn. destruct (n / 36 =? 0)%N; eauto.
  - change (digits36 (S (S fuel)) n acc)
      with (let acc' := String (digit36 (n mod 36)) acc in
            if (n / 36 =? 0)%N then acc' else digits36 (S fuel) (n / 36) acc').
    cbv zeta. destruct (n / 36 =? 0)%N; [eauto | apply IH].
Qed.

(** Reading the digits back gives the number: the numeral is exact. *)
Lemma val36_digits36 (fuel : nat) (n : N) (acc : string) :
  (n < 2 ^ N.of_nat fuel)%N →
  val36 (digits36 fuel n acc)
  = (n * 36 ^ N.of_nat (String.length acc) + val36 acc)%N.
Proof.
  revert n acc. induction fuel as [| fuel IH]; intros n acc Hn.
  - cbn in *. assert (n = 0%N) as -> by lia. lia.
  - cbn [digits36]. cbv zeta.
    assert (n mod 36 < 36)%N as Hm by (apply N.mod_lt; lia).
    pose proof (N.div_mod n 36 ltac:(lia)) as Hdm.
    destruct (N.eqb_spec (n / 36) 0) as [Hz | Hz].
    + cbn [val36]. rewrite digit_val_digit36 by exact Hm.
      rewrite Hz in Hdm. replace (n mod 36)%N with n by lia. reflexivity.
    + rewrite IH.
      * cbn [val36 String.length]. rewrite digit_val_digit36 by exact Hm.
        rewrite Nat2N.inj_succ, N.pow_succ_r by lia.
        generalize dependent (n / 36)%N. generalize dependent (n mod 36)%N.
        intros r _ q -> _. ring.
      * rewrite Nat2N.inj_succ, N.pow_succ_r in Hn by lia.
        apply N.Div0.div_lt_upper_bound. lia.
Qed.

Lemma toString36_shape (z : Z) :
  ∃ c d, toString36 z = String c d ∧ dash_free d = true.
Proof.
  destruct z as [| p | p]; cbn [toString36].
  - exists "0"%char, "". auto.
  - pose proof (digits36_dash_free (S (N.to_nat (N.log2 (Npos p)))) (Npos p) "" eq_refl) as Hd.
    destruct (digits36_nonempty (N.to_nat (N.log2 (Npos p))) (Npos p) "") as (c & d & E).
    rewrite E in *. exists c, d. split; [reflexivity |].
    cbn in Hd. now apply andb_true_iff in Hd as [_ Hd].
  - eexists _, _. split; [reflexivity |]. now apply digits36_dash_free.
Qed.

Lemma val36_toString36_pos (p : positive) :
  val36 (digits36 (S (N.to_nat (N.log2 (Npos p)))) (Npos p) "") = Npos p.
Proof.
  rewrite val36_digits36.
  - cbn [String.length val36]. change (N.of_nat 0) with 0%N. lia.
  - rewrite Nat2N.inj_succ, N2Nat.id. apply N.log2_spec. lia.
Qed.

Lemma toString36_inj (z1 z2 : Z) : toString36 z1 = toString36 z2 → z1 = z2.
Proof.
  assert (∀ p, dash_free (digits36 (S (N.to_nat (N.log2 (Npos p)))) (Npos p) "") = true)
    as Hfree by (intros p; now apply digits36_dash_free).
  destruct z1 as [| p1 | p1], z2 as [| p2 | p2]; cbn [toString36]; intros E;
    try reflexivity; try discriminate E.
  - apply (f_equal val36) in E. rewrite (val36_toString36_pos p2) in E. discriminate E.
  - apply (f_equal val36) in E. rewrite (val36_toString36_pos p1) in E. discriminate E.
  - apply (f_equal val36) in E.
    rewrite (val36_toString36_pos p1), (val36_toString36_pos p2) in E.
    now injection E as ->.
  - pose proof (Hfree p1) as H. rewrite E in H. discriminate H.
  - pose proof (Hfree p2) as H. rewrite <- E in H. discriminate H.
  - assert (∀ a b : string, String "-" a = String "-" b → a = b) as Hinj
      by (intros a b [= ->]; reflexivity).
    apply Hinj, (f_equal val36) in E.
    rewrite (val36_toString36_pos p1), (val36_toString36_pos p2) in E.
    now injection E as ->.
Qed.

(** Where the first dash after a dash-free prefix is, is determined. *)
Lemma split_at_dash (a1 a2 u1 u2 : string) :
  dash_free a1 = true → dash_free a2 = true →
  a1 +:+ String "-" u1 = a2 +:+ String "-" u2 → a1 = a2 ∧ u1 = u2.
Proof.
  revert a2. induction a1 as [| c1 a1 IH]; intros [| c2 a2] H1 H2 E;
    rewrite ?append_empty, ?append_String in E.
  - now injection E as ->.
  - injection E as <- _. discriminate H2.
  - injection E as -> _. discriminate H1.
  - injection E as -> E. cbn in H1, H2.
    apply andb_true_iff in H1 as [_ H1]. apply andb_true_iff in H2 as [_ H2].
    destruct (IH a2 H1 H2 E) as [-> ->]. auto.
Qed.

Lemma mkJobId_inj (now1 now2 : Z) (rnd1 rnd2 : string) :
  mkJobId now1 rnd1 = mkJobId now2 rnd2 ↔
  now1 = now2 ∧ slice 2 8 rnd1 = slice 2 8 rnd2.
Proof.
  unfold mkJobId. split; [| intros [-> E]; now rewrite E].
  intros E.
  destruct (toString36_shape now1) as (c1 & d1 & E1 & F1).
  destruct (toString36_shape now2) as (c2 & d2 & E2 & F2).
  rewrite E1, E2 in E. rewrite !append_String, !append_empty in E.
  injection E as -> E.
  destruct (split_at_dash d1 d2 _ _ F1 F2 E) as [-> Hs].
  split; [| exact Hs]. apply toString36_inj. now rewrite E1, E2.
Qed.

Lemma start_jobId (now : Z) (rnd : string) (s : State) :
  is_Some (file s) → jobId (start now rnd s) = Some (mkJobId now rnd).
Proof.
  intros [f Hf]. unfold start. now rewrite Hf.
Qed.

(** C8 (as amended): the ids that two submissions receive are equal
    exactly when the clock reads the same millisecond in both and the six
    characters kept from the two random texts agree; so they are distinct
    whenever the readings or the kept characters differ. *)
Theorem C8_job_ids_differ_by_clock_or_suffix
    (s1 s2 : State) (now1 now2 : Z) (rnd1 rnd2 : string) :
  is_Some (file s1) → is_Some (file s2) →
  (jobId (start now1 rnd1 s1) = jobId (start now2 rnd2 s2)
   ↔ now1 = now2 ∧ slice 2 8 rnd1 = slice 2 8 rnd2)
  ∧ (now1 ≠ now2 ∨ slice 2 8 rnd1 ≠ slice 2 8 rnd2 →
     jobId (start now1 rnd1 s1) ≠ jobId (start now2 rnd2 s2)).
Proof.
  intros H1 H2. rewrite !start_jobId by assumption.
  assert (Some (mkJobId now1 rnd1) = Some (mkJobId now2 rnd2)
          ↔ now1 = now2 ∧ slice 2 8 rnd1 = slice 2 8 rnd2) as Hiff.
  { split.
    - intros E. apply mkJobId_inj. congruence.
    - intros E. f_equal. now apply mkJobId_inj. }
  split; [exact Hiff |]. rewrite Hiff. tauto.
Qed.

Lemma C8_job_ids_differ_by_clock_or_suffix_witness :
  jobId (start 1762041600000 "0.k3f9x2p7c1m" (pick (Some law_html) init))
  ≠ jobId (start 1762041609250 "0.k3f9x2p7c1m" (pick (Some law_html) init)).
Proof.
  apply (C8_job_ids_differ_by_clock_or_suffix
           (pick (Some law_html) init) (pick (Some law_html) init)
           1762041600000 1762041609250 "0.k3f9x2p7c1m" "0.k3f9x2p7c1m").
  - exists law_html. reflexivity.
  - exists law_html. reflexivity.
  - left. discriminate.
Defined.

(** C8 (as stated) fails: two submissions, each run to completion in one
    session, receive the same id when [Date.now()], which follows the wall
    clock and can be set back, reads the same millisecond for both and the
    random texts agree in their first six digits. *)
Lemma C8_same_reading_same_id :
  run_ui (take 5 SimRuns.same_reading) init = Some SimRuns.first_done
  ∧ run_ui SimRuns.same_reading init = Some SimRuns.second_done
  ∧ status SimRuns.first_done = Some "COMPLETED"
  ∧ status SimRuns.second_done = Some "COMPLETED"
  ∧ resultUrl SimRuns.first_done ≠ resultUrl SimRuns.second_done
  ∧ jobId SimRuns.first_done = Some "JOB-mhgy2o00-k3f9x2"
  ∧ jobId SimRuns.second_done = Some "JOB-mhgy2o00-k3f9x2".
Proof.
  split; [vm_compute; reflexivity |]. split; [vm_compute; reflexivity |].
  split; [vm_compute; reflexivity |]. split; [vm_compute; reflexivity |].
  split; [vm_compute; discriminate |].
  split; vm_compute; reflexivity.
Qed.

(** *** Progress *)

Example ticks_value : ticks = 67%Z.
Proof. reflexivity. Qed.

Example pct_samples :
  map pct [0; 1; 2; 3; 33; 34; 66; 67; 68; 75]%Z
  = [0; 1; 3; 4; 47; 49; 95; 96; 96; 96]%Z.
Proof. reflexivity. Qed.

Lemma pct_le (k : Z) : (pct k ≤ 96)%Z.
Proof. unfold pct. lia. Qed.

Lemma pct_nonneg (k : Z) : (0 ≤ k → 0 ≤ pct k)%Z.
Proof.
  intros Hk. unfold pct, round_div. change ticks with 67%Z.
  apply Z.min_glb; [lia |]. apply Z.div_pos; lia.
Qed.

Lemma pct_mono (k : Z) : (pct k ≤ pct (k + 1))%Z.
Proof.
  unfold pct, round_div. change ticks with 67%Z.
  apply Z.min_le_compat_l, Z.div_le_mono; lia.
Qed.

(** The quotient that [pct] rounds is never a half-integer, nor closer to
    one than [1 / (2 * ticks)]: the rounding is stable under the error
    of floating-point arithmetic. *)
Lemma round_div_margin (k : Z) :
  (1 ≤ (2 * (k * 96) + ticks) mod (2 * ticks) ≤ 2 * ticks - 1)%Z.
Proof.
  change ticks with 67%Z.
  pose proof (Z.mod_pos_bound (2 * (k * 96) + 67) (2 * 67) ltac:(lia)) as Hb.
  pose proof (Z.div_mod (2 * (k * 96) + 67) (2 * 67) ltac:(lia)) as Hd.
  lia.
Qed.

Lemma lookup_clearAll (l : list nat) (s : State) (h : nat) (t : Timer) :
  timers (clearAll l s) !! h = Some t → timers s !! h = Some t ∧ h ∉ l.
Proof.
  cbn. induction l as [| h0 l IH]; cbn.
  - intros H. split; [exact H | apply not_elem_of_nil].
  - rewrite lookup_delete. case_decide as Hh; [discriminate |].
    intros H. destruct (IH H) as [H1 H2]. split; [exact H1 |].
    rewrite not_elem_of_cons. auto.
Qed.

Lemma sim_inv_subset (s s' : State) :
  (∀ h t, timers s' !! h = Some t → timers s !! h = Some t) →
  intervalsRef s' = intervalsRef s → progress s' = progress s → busy s' = busy s →
  sim_inv s → sim_inv s'.
Proof.
  intros Hsub Hi Hp Hb ((T1 & T2) & C & B & K).
  split; [split |]; [| | split; [| split]].
  - intros h t Hl Ht. rewrite Hi, Hp. apply T1; auto.
  - intros h h' t t' Hl Hl'. apply T2; auto.
  - intros h t f r Hl Hcb. apply (C h t f r); auto.
  - now rewrite Hp.
  - rewrite Hb. intros Hbusy (h & t & Hl & Ht). apply (K Hbusy). exists h, t. auto.
Qed.

Lemma sim_inv_no_ticks (s : State) :
  (∀ h t, timers s !! h = Some t → is_tick t = false) →
  completions_ok s → (0 ≤ progress s ≤ 100)%Z → sim_inv s.
Proof.
  intros Hno C B. split; [split |]; [| | split; [| split]]; auto.
  - intros h t Hl Ht. rewrite (Hno h t Hl) in Ht. discriminate Ht.
  - intros h h' t t' Hl _ Ht. rewrite (Hno h t Hl) in Ht. discriminate Ht.
  - intros _ (h & t & Hl & Ht). rewrite (Hno h t Hl) in Ht. discriminate Ht.
Qed.

Lemma start_fields (now : Z) (rnd : string) (s : State) (f : File.t) :
  file s = Some f →
  timers (start now rnd s)
  = <[S (S (next_timer s)) := {| delay := totalMs; repeat := false;
                                 callback := CbToComplete f (risk s) |}]>
      (<[S (next_timer s) := {| delay := tickMs; repeat := true; callback := CbTick 0 |}]>
         (<[next_timer s := {| delay := 900; repeat := false; callback := CbToRunning |}]>
            (timers s)))
  ∧ intervalsRef (start now rnd s) = intervalsRef s ++ [S (next_timer s)]
  ∧ progress (start now rnd s) = 0%Z
  ∧ busy (start now rnd s) = true.
Proof.
  intros Hf. unfold start. rewrite Hf. cbn. auto.
Qed.

Lemma start_sim_inv (now : Z) (rnd : string) (s : State) :
  sim_inv s → busy s = false → sim_inv (start now rnd s).
Proof.
  intros ((T1 & T2) & C & B & K) Hb.
  assert (∀ h t, timers s !! h = Some t → is_tick t = false) as Hno.
  { intros h t Hl. destruct (is_tick t) eqn:Ht; [| reflexivity].
    destruct (K Hb). exists h, t. auto. }
  destruct (file s) as [f |] eqn:Hf.
  - destruct (start_fields now rnd s f Hf) as (Et & Ei & Ep & Eb).
    unfold sim_inv, ticks_ok, completions_ok. rewrite Et, Ei, Ep, Eb.
    split; [split |]; [| | split; [| split]].
    + intros h t. rewrite !lookup_insert. repeat case_decide; subst.
      * intros [= <-] Ht. cbn in Ht. discriminate Ht.
      * intros [= <-] _. split; [apply elem_of_app; right; apply list_elem_of_singleton; reflexivity |].
        exists 0%Z. split; [reflexivity |]. split; [lia | reflexivity].
      * intros [= <-] Ht. cbn in Ht. discriminate Ht.
      * intros Hl Ht. rewrite (Hno h t Hl) in Ht. discriminate Ht.
    + intros h h' t t'. rewrite !lookup_insert. repeat case_decide; subst;
        intros Hl Hl' Ht Ht'; try reflexivity;
        try (injection Hl as <-; cbn in Ht; discriminate Ht);
        try (injection Hl' as <-; cbn in Ht'; discriminate Ht');
        try (rewrite (Hno _ _ Hl) in Ht; discriminate Ht);
        try (rewrite (Hno _ _ Hl') in Ht'; discriminate Ht').
    + intros h t f' r'. rewrite !lookup_insert. repeat case_decide; subst.
      * intros [= <-] [= <- <-]. reflexivity.
      * intros [= <-]. discriminate.
      * intros [= <-]. discriminate.
      * apply C.
    + lia.
    + discriminate.
  - unfold start. rewrite Hf. apply sim_inv_no_ticks.
    + exact Hno.
    + exact C.
    + unfold setError, setProgress, progress. lia.
Qed.

Lemma cancel_sim_inv (s : State) : sim_inv s → sim_inv (cancelPolling s).
Proof.
  intros ((T1 & T2) & C & B & K).
  assert (∀ h t, timers (cancelPolling s) !! h = Some t →
                 timers s !! h = Some t ∧ h ∉ intervalsRef s) as Hsub.
  { intros h t Hl. apply lookup_clearAll in Hl as [Hl Hn].
    apply lookup_clearAll in Hl as [Hl _]. auto. }
  apply sim_inv_no_ticks.
  - intros h t Hl. destruct (Hsub h t Hl) as [Hl' Hn].
    destruct (is_tick t) eqn:Ht; [| reflexivity].
    destruct (T1 h t Hl' Ht) as [Hin _]. contradiction.
  - intros h t f r Hl Hcb. apply (C h t f r); [now apply Hsub | exact Hcb].
  - exact B.
Qed.

Lemma complete_sim_inv (f : File.t) (r : Risk) (blob : string) (s : State) :
  ticks_ok s → completions_ok s → sim_inv (complete f r blob s).
Proof.
  intros (T1 & T2) C.
  assert (∀ h t, timers (complete f r blob s) !! h = Some t →
                 t = {| delay := 2500; repeat := false; callback := CbConfetti |}
                 ∨ (timers s !! h = Some t ∧ h ∉ intervalsRef s)) as Hsub.
  { intros h t. cbn. rewrite lookup_insert. case_decide.
    - intros [= <-]. auto.
    - intros Hl. right. apply (lookup_clearAll (intervalsRef s) s h t Hl). }
  apply sim_inv_no_ticks.
  - intros h t Hl. destruct (Hsub h t Hl) as [-> | [Hl' Hn]]; [reflexivity |].
    destruct (is_tick t) eqn:Ht; [| reflexivity].
    destruct (T1 h t Hl' Ht) as [Hin _]. contradiction.
  - intros h t f' r' Hl Hcb. destruct (Hsub h t Hl) as [-> | [Hl' _]];
      [discriminate Hcb | now apply (C h t f' r')].
  - cbn. lia.
Qed.

Lemma step_sim_inv (e : Event) (s s' : State) :
  sim_inv s → (is_start e = true → busy s = false) → step e s = Some s' → sim_inv s'.
Proof.
  intros Hinv Hoff Hs. destruct e as [f | r | now rnd | | h blob]; cbn in Hs, Hoff.
  - injection Hs as <-. revert Hinv. apply sim_inv_subset; unfold pick;
      destruct (negb _); auto.
  - injection Hs as <-. revert Hinv. apply sim_inv_subset; auto.
  - injection Hs as <-. apply start_sim_inv; auto.
  - injection Hs as <-. now apply cancel_sim_inv.
  - destruct (timers s !! h) as [t |] eqn:Hl; [| discriminate].
    injection Hs as <-. pose proof Hinv as ((T1 & T2) & C & B & K).
    unfold run_callback. destruct (callback t) as [| k | f r |] eqn:Hcb.
    + apply (sim_inv_subset s); try (destruct (repeat t); reflexivity);
        [| exact Hinv].
      intros h' t'. destruct (repeat t); cbn; [auto |].
      rewrite lookup_delete. case_decide; [discriminate | auto].
    + assert (is_tick t = true) as Ht by (unfold is_tick; now rewrite Hcb).
      destruct (T1 h t Hl Ht) as (Hin & k' & -> & Hk & Hp).
      injection Hcb as ->. cbn.
      split; [split |]; [| | split; [| split]]; cbn.
      * intros h' t'. rewrite lookup_insert. case_decide.
        -- subst h'. intros [= <-] _. split; [exact Hin |].
           exists (k + 1)%Z. split; [reflexivity |]. split; [lia | reflexivity].
        -- intros Hl' Ht'. destruct (T2 h h' _ t' Hl Hl' Ht Ht'). contradiction.
      * intros h1 h2 t1 t2. rewrite !lookup_insert.
        destruct (decide (h = h1)) as [<- | N1], (decide (h = h2)) as [<- | N2];
          intros Hl1 Hl2 Ht1 Ht2.
        -- reflexivity.
        -- apply (T2 h h2 _ _ Hl Hl2 Ht Ht2).
        -- apply (T2 h1 h _ _ Hl1 Hl Ht1 Ht).
        -- apply (T2 h1 h2 _ _ Hl1 Hl2 Ht1 Ht2).
      * unfold completions_ok. cbn.
        intros h' t' f r. rewrite lookup_insert. case_decide.
        -- intros [= <-]. discriminate.
        -- apply (C h' t' f r).
      * pose proof (pct_le (k + 1)). pose proof (pct_nonneg (k + 1)). lia.
      * intros Hb. destruct (K Hb). exists h. eauto.
    + rewrite (C h t f r Hl Hcb). cbn [repeat].
      apply complete_sim_inv.
      * split.
        -- intros h' t'. cbn. rewrite lookup_delete. case_decide; [discriminate |].
           apply T1.
        -- intros h1 h2 t1 t2. cbn. rewrite !lookup_delete.
           repeat case_decide; try discriminate. apply T2.
      * intros h' t' f' r'. cbn. rewrite lookup_delete. case_decide; [discriminate |].
        apply (C h' t' f' r').
    + apply (sim_inv_subset s); try (destruct (repeat t); reflexivity);
        [| exact Hinv].
      intros h' t'. destruct (repeat t); cbn; [auto |].
      rewrite lookup_delete. case_decide; [discriminate | auto].
Qed.

Lemma ui_reachable_sim_inv (s : State) : ui_reachable s → sim_inv s.
Proof.
  intros [evs H].
  assert (sim_inv init) as Hinit.
  { apply sim_inv_no_ticks; [| | cbn; lia].
    - intros h t. cbn. now rewrite lookup_empty.
    - intros h t f r. cbn. now rewrite lookup_empty. }
  revert H Hinit. generalize init. induction evs as [| e evs IH]; intros s0; cbn.
  - now intros [= <-].
  - destruct (offered e s0) eqn:Hoff; [| discriminate].
    destruct (step e s0) as [s1 |] eqn:Hs; [| discriminate].
    intros H Hinv. apply (IH s1 H). apply (step_sim_inv e s0); auto.
    intros He. destruct e; try discriminate He. cbn in Hoff.
    apply andb_true_iff in Hoff as [Hb _]. now apply negb_true_iff in Hb.
Qed.

(** C9: in every session, at every step other than the click that starts
    a new submission, the progress value does not decrease; while the
    repeating interval (period 120 ms) is armed it is at most 96; it
    becomes 100 only by the firing of the completion timer, and that
    firing sets it to 100, builds the fixed payload, sets COMPLETED and
    leaves no interval armed. *)
Theorem C9_progress_monotone_capped (s s' : State) (e : Event) :
  ui_reachable s → is_start e = false → step e s = Some s' →
  (progress s ≤ progress s')%Z
  ∧ (∀ h t, timers s' !! h = Some t → is_tick t = true →
            delay t = 120%Z ∧ repeat t = true ∧ (progress s' ≤ 96)%Z)
  ∧ (progress s' = 100%Z → progress s ≠ 100%Z → ∃ f r, completes e s f r)
  ∧ (∀ f r, completes e s f r →
            progress s' = 100%Z ∧ status s' = Some "COMPLETED"
            ∧ resultData s' = Some (mock (File.name f) r) ∧ ¬ ticking s').
Proof.
  intros Hr He Hs. pose proof (ui_reachable_sim_inv s Hr) as Hinv.
  assert (sim_inv s') as Hinv'.
  { apply (step_sim_inv e s s' Hinv); [| exact Hs]. rewrite He. discriminate. }
  destruct Hinv as ((T1 & T2) & C & B & K).
  destruct Hinv' as ((T1' & _) & _ & _ & K').
  assert (∀ h t, timers s' !! h = Some t → is_tick t = true →
                 delay t = 120%Z ∧ repeat t = true ∧ (progress s' ≤ 96)%Z) as Hcap.
  { intros h t Hl Ht. destruct (T1' h t Hl Ht) as (_ & k & -> & _ & ->).
    split; [reflexivity |]. split; [reflexivity | apply pct_le]. }
  assert (progress s' = progress s →
          (∀ f r, ¬ completes e s f r) →
          (progress s ≤ progress s')%Z
          ∧ (progress s' = 100%Z → progress s ≠ 100%Z → ∃ f r, completes e s f r)
          ∧ (∀ f r, completes e s f r →
                    progress s' = 100%Z ∧ status s' = Some "COMPLETED"
                    ∧ resultData s' = Some (mock (File.name f) r) ∧ ¬ ticking s')) as Hsame.
  { intros Ep Hnc. rewrite Ep. split; [lia |]. split; [contradiction |].
    intros f r Hc. destruct (Hnc f r Hc). }
  split; [| split; [exact Hcap |]];
    destruct e as [f | r | now rnd | | h blob]; try discriminate He; cbn in Hs;
    try (injection Hs as <-;
         apply Hsame; [unfold pick; try destruct (negb _); reflexivity
                      | intros f0 r0 (h0 & b0 & E0 & _); discriminate E0]).
  - destruct (timers s !! h) as [t |] eqn:Hl; [| discriminate].
    injection Hs as <-. unfold run_callback.
    destruct (callback t) as [| k | f r |] eqn:Hcb.
    + destruct (repeat t); cbn; lia.
    + assert (is_tick t = true) as Ht by (unfold is_tick; now rewrite Hcb).
      destruct (T1 h t Hl Ht) as (_ & k' & -> & _ & Hp). injection Hcb as ->.
      cbn. rewrite Hp. apply pct_mono.
    + rewrite (C h t f r Hl Hcb). cbn. lia.
    + destruct (repeat t); cbn; lia.
  - destruct (timers s !! h) as [t |] eqn:Hl; [| discriminate].
    injection Hs as Hs'.
    assert (∀ f r, completes (Fire h blob) s f r → callback t = CbToComplete f r) as Hct.
    { intros f r (h0 & b0 & [= <- <-] & Hl0). rewrite Hl in Hl0. now injection Hl0 as ->. }
    unfold run_callback in Hs'. destruct (callback t) as [| k | f r |] eqn:Hcb.
    + subst s'. apply Hsame; [destruct (repeat t); reflexivity |].
      intros f r Hc. discriminate (Hct f r Hc).
    + assert (is_tick t = true) as Ht by (unfold is_tick; now rewrite Hcb).
      destruct (T1 h t Hl Ht) as (_ & k' & Et & _ & Hp).
      split; [| intros f r Hc; discriminate (Hct f r Hc)].
      subst s'. cbn. intros E. pose proof (pct_le (k + 1)). lia.
    + split.
      * intros _ _. exists f, r, h, blob. split; [reflexivity |].
        now rewrite <- (C h t f r Hl Hcb).
      * intros f' r' Hc. pose proof (Hct f' r' Hc) as [= <- <-].
        split; [| split; [| split]].
        -- subst s'. reflexivity.
        -- subst s'. reflexivity.
        -- subst s'. reflexivity.
        -- apply K'. subst s'. reflexivity.
    + subst s'. apply Hsame; [destruct (repeat t); reflexivity |].
      intros f r Hc. discriminate (Hct f r Hc).
Qed.

Lemma C9_progress_monotone_capped_witness :
  ui_reachable SimRuns.after_two_ticks
  ∧ progress SimRuns.after_two_ticks = 3%Z
  ∧ ∃ s', step (Fire 2 "") SimRuns.after_two_ticks = Some s'
          ∧ (progress SimRuns.after_two_ticks ≤ progress s')%Z.
Proof.
  assert (ui_reachable SimRuns.after_two_ticks) as Hr.
  { exists SimRuns.two_ticks. vm_compute. reflexivity. }
  split; [exact Hr |]. split; [vm_compute; reflexivity |].
  eexists. split; [vm_compute; reflexivity |].
  refine (proj1 (C9_progress_monotone_capped SimRuns.after_two_ticks _ (Fire 2 "")
                   Hr eq_refl _)).
  vm_compute. reflexivity.
Defined.

(** In the simulated driver COMPLETED and the result location are set
    together, by the completion timer and by nothing else. *)
Lemma sim_completed_with_result (e : Event) (s s' : State) :
  step e s = Some s' →
  (status s' = Some "COMPLETED" → status s' ≠ status s → truthy (resultUrl s') = true)
  ∧ (truthy (resultUrl s') = true → resultUrl s' ≠ resultUrl s →
     status s' = Some "COMPLETED")
  ∧ (∀ h blob t f r, e = Fire h blob → timers s !! h = Some t →
                     callback t = CbToComplete f r →
                     status s' = Some "COMPLETED"
                     ∧ resultUrl s' = Some ("blob:" +:+ blob)).
Proof.
  intros Hs.
  assert (status s' = status s → resultUrl s' = resultUrl s →
          (∀ h blob t f r, e = Fire h blob → timers s !! h = Some t →
                           callback t ≠ CbToComplete f r) →
          (status s' = Some "COMPLETED" → status s' ≠ status s → truthy (resultUrl s') = true)
          ∧ (truthy (resultUrl s') = true → resultUrl s' ≠ resultUrl s →
             status s' = Some "COMPLETED")
          ∧ (∀ h blob t f r, e = Fire h blob → timers s !! h = Some t →
                             callback t = CbToComplete f r →
                             status s' = Some "COMPLETED"
                             ∧ resultUrl s' = Some ("blob:" +:+ blob))) as Hsame.
  { intros E1 E2 Hn. split; [intros _ H; now destruct H |].
    split; [intros _ H; now destruct H |].
    intros h blob t f r He Hl Hcb. destruct (Hn h blob t f r He Hl Hcb). }
  destruct e as [f | r | now rnd | | h blob]; cbn in Hs.
  - injection Hs as <-. apply Hsame; try discriminate;
      unfold pick; destruct (negb _); reflexivity.
  - injection Hs as <-. apply Hsame; try discriminate; reflexivity.
  - injection Hs as <-. unfold start. destruct (file s); cbn.
    + split; [discriminate |]. split; discriminate.
    + split; [intros _ H; now destruct H |]. split; discriminate.
  - injection Hs as <-. apply Hsame; try discriminate; reflexivity.
  - destruct (timers s !! h) as [t |] eqn:Hl; [| discriminate].
    injection Hs as <-. unfold run_callback in *.
    destruct (callback t) as [| k | f r |] eqn:Hcb.
    + split; [destruct (repeat t); discriminate |].
      split; [destruct (repeat t); intros _ H; now destruct H |].
      intros h0 blob0 t0 f r [= <- <-] Hl0 Hcb0. rewrite Hl in Hl0.
      injection Hl0 as <-. rewrite Hcb in Hcb0. discriminate Hcb0.
    + apply Hsame; try (destruct (repeat t); reflexivity).
      intros h0 blob0 t0 f r [= <- <-] Hl0 Hcb0. rewrite Hl in Hl0.
      injection Hl0 as <-. rewrite Hcb in Hcb0. discriminate Hcb0.
    + split; [intros _ _; reflexivity |]. split; [intros _ _; reflexivity |].
      intros h0 blob0 t0 f0 r0 [= <- <-] _ _. split; reflexivity.
    + apply Hsame; try (destruct (repeat t); reflexivity).
      intros h0 blob0 t0 f r [= <- <-] Hl0 Hcb0. rewrite Hl in Hl0.
      injection Hl0 as <-. rewrite Hcb in Hcb0. discriminate Hcb0.
Qed.

End SimFacts.

(** ** Static assets and reading guides *)

Module AssetsFacts.
Import Assets AssetsSpec.

Example join_samples :
  map join [["/"; "static"; "a/b.html"]; ["a"; ""; "b"]; []; ["/"; "?q"];
            ["a/"; "/#h/?x"]; ["https://cdn.x/app/"; "static"; "a.html"]]
  = ["/static/a/b.html"; "a/b"; ""; "?q"; "a#h/?x"; "https:/cdn.x/app/static/a.html"].
Proof. reflexivity. Qed.

Example assetUrl_custom_env :
  assetUrl {| VITE_STATIC_PREFIX := Some "assets/"; env_BASE_URL := Some "/app" |}
           "///x//y.html"
  = "/app/assets/x/y.html".
Proof. reflexivity. Qed.

Lemma collapse_single (b : bool) (s : string) :
  single_slashes b (collapse_from b s) = true.
Proof.
  revert b. induction s as [| c s IH]; intros b; cbn; [reflexivity |].
  destruct (Ascii.eqb c "/") eqn:Hc.
  - destruct b; cbn; [apply IH |]. rewrite Hc. cbn. apply IH.
  - cbn. rewrite Hc. apply IH.
Qed.

Lemma unslash_single (b : bool) (s : string) :
  single_slashes b s = true → single_slashes b (unslash_mark s) = true.
Proof.
  revert b. induction s as [| c s IH]; intros b; [auto |].
  destruct s as [| m r]; [auto |].
  change (unslash_mark (String c (String m r)))
    with (if Ascii.eqb c "/" && (Ascii.eqb m "?" || Ascii.eqb m "#")
          then String m r else String c (unslash_mark (String m r))).
  destruct (Ascii.eqb c "/") eqn:Hc.
  - destruct (Ascii.eqb m "?" || Ascii.eqb m "#") eqn:Hm; cbn [andb].
    + intros H. cbn in H. rewrite Hc in H. apply andb_true_iff in H as [Hb H].
      cbn in H. cbn.
      destruct (Ascii.eqb_spec m "/") as [-> | _]; [discriminate Hm | exact H].
    + intros H. cbn [single_slashes] in H. rewrite Hc in H.
      apply andb_true_iff in H as [Hb H].
      cbn [single_slashes]. rewrite Hc, Hb. cbn [andb]. apply IH, H.
  - cbn [andb]. intros H. cbn [single_slashes] in H. rewrite Hc in H.
    cbn [single_slashes]. rewrite Hc. apply IH, H.
Qed.

(** X1: whatever the parts, the text that join returns has no two
    slashes side by side; the double slash of an absolute address is
    collapsed with the rest. *)
Theorem X1_join_has_single_slashes (parts : list string) :
  single_slashes false (join parts) = true.
Proof.
  unfold join, collapse_slashes. apply unslash_single, collapse_single.
Qed.

Lemma collapse_plain (b : bool) (s : string) :
  plain_from b s = true → collapse_from b s = s.
Proof.
  revert b. induction s as [| c s IH]; intros b; cbn; [reflexivity |].
  destruct (Ascii.eqb c "/").
  - intros H. apply andb_true_iff in H as [Hb H]. apply negb_true_iff in Hb.
    rewrite Hb. f_equal. apply IH, H.
  - intros H. apply andb_true_iff in H as [_ H]. f_equal. apply IH, H.
Qed.

Lemma unslash_plain (b : bool) (s : string) :
  plain_from b s = true → unslash_mark s = s.
Proof.
  revert b. induction s as [| c s IH]; intros b; [auto |].
  destruct s as [| m r]; [auto |].
  change (unslash_mark (String c (String m r)))
    with (if Ascii.eqb c "/" && (Ascii.eqb m "?" || Ascii.eqb m "#")
          then String m r else String c (unslash_mark (String m r))).
  intros H. cbn [plain_from] in H.
  destruct (Ascii.eqb c "/") eqn:Hc.
  - apply andb_true_iff in H as [_ H].
    assert (Ascii.eqb m "?" || Ascii.eqb m "#" = false) as ->.
    { destruct (Ascii.eqb m "/"); [apply andb_true_iff in H as [H _]; discriminate H |].
      apply andb_true_iff in H as [H _]. cbn [andb] in H. now apply negb_true_iff in H. }
    cbn [andb]. f_equal. apply (IH true). cbn [plain_from]. exact H.
  - cbn [andb]. apply andb_true_iff in H as [_ H]. f_equal. apply (IH false).
    cbn [plain_from]. exact H.
Qed.

Lemma strip_plain (s : string) :
  plain_from true s = true → strip_leading_slashes s = s.
Proof.
  destruct s as [| c s]; cbn; [reflexivity |].
  destruct (Ascii.eqb c "/"); [discriminate | reflexivity].
Qed.

Lemma shown_files_plain (r : Risk) :
  forallb (plain_from true) (shown_files r) = true.
Proof. destruct r; reflexivity. Qed.

(** X2: without overrides in the environment, the address of a relative
    path that has no run of slashes, no slash before a question mark or
    hash, and does not begin with one of these three characters is the
    path behind /static/; every file of the cards is such a path. *)
Theorem X2_assetUrl_of_plain_path :
  (∀ p, plain_from true p = true → assetUrl default_env p = "/static/" +:+ p)
  ∧ (∀ r src, In src (shown_files r) → assetUrl default_env src = "/static/" +:+ src).
Proof.
  assert (∀ p, plain_from true p = true → assetUrl default_env p = "/static/" +:+ p) as H.
  { intros p Hp. unfold assetUrl. rewrite (strip_plain p Hp). unfold join.
    change (array_join "/" [_; _; p]) with ("//static/" +:+ p).
    change (collapse_slashes ("//static/" +:+ p))
      with ("/static/" +:+ collapse_from true p).
    rewrite (collapse_plain true p Hp).
    apply (unslash_plain false). exact Hp. }
  split; [exact H |].
  intros r src Hin. apply H.
  apply (proj1 (forallb_forall _ _) (shown_files_plain r) src Hin).
Qed.

Lemma X2_assetUrl_of_plain_path_witness :
  plain_from true "charts/moyen_top30_after.html" = true
  ∧ assetUrl default_env "charts/moyen_top30_after.html"
    = "/static/charts/moyen_top30_after.html".
Proof.
  split; [reflexivity |].
  exact (proj1 X2_assetUrl_of_plain_path "charts/moyen_top30_after.html" eq_refl).
Defined.

Lemma shown_files_guides (r : Risk) :
  forallb (λ src, match getReadingGuideForSrc src with
                  | Some g => negb (is_table src)
                              && negb (bool_decide (g_title g = g_title guide_table))
                  | None => is_table src
                  end) (shown_files r) = true.
Proof. destruct r; vm_compute; reflexivity. Qed.

(** X3: for every profile, each file of the cards gets a reading guide
    except the table under tables/, which gets none: its path has no
    slash in front of tables, which the table guide asks for.  The table
    guide is shown for no file of the cards. *)
Theorem X3_guides_of_shown_files (r : Risk) (src : string) :
  In src (shown_files r) →
  (is_table src = true ∧ getReadingGuideForSrc src = None)
  ∨ (is_table src = false
     ∧ ∃ g, getReadingGuideForSrc src = Some g ∧ g_title g ≠ g_title guide_table).
Proof.
  intros Hin.
  pose proof (proj1 (forallb_forall _ _) (shown_files_guides r) src Hin) as H.
  cbv beta in H. destruct (getReadingGuideForSrc src) as [g |].
  - right. apply andb_true_iff in H as [H1 H2].
    apply negb_true_iff in H1, H2. apply bool_decide_eq_false in H2. eauto.
  - left. auto.
Qed.

Lemma X3_guides_of_shown_files_witness :
  In "tables/fort_top30.html" (shown_files RISKY)
  ∧ getReadingGuideForSrc "tables/fort_top30.html" = None.
Proof.
  assert (In "tables/fort_top30.html" (shown_files RISKY)) as Hin
    by (vm_compute; tauto).
  split; [exact Hin |].
  destruct (X3_guides_of_shown_files RISKY _ Hin) as [[_ H] | [H _]];
    [exact H | discriminate H].
Defined.

End AssetsFacts.

(** ** The live driver, further properties *)

Module LiveMore.
Import Live LiveSpec LiveTerms LiveFacts.

(** X4: in every reachable state at most one polling interval is armed;
    it is the one whose handle pollRef holds, and it repeats every
    2500 ms. *)
Theorem X4_one_polling_interval (s : State) (h : nat) (t : Timer) :
  reachable s → timers s !! h = Some t → is_poll_timer t = true →
  pollRef s = Some h ∧ delay t = 2500 ∧ repeat t = true
  ∧ ∀ h' t', timers s !! h' = Some t' → is_poll_timer t' = true → h' = h.
Proof.
  intros Hr Hl Hp. pose proof (reachable_timers_ok s Hr) as Hok.
  destruct (Hok h t Hl) as [(id & -> & Href) | (jid & ->)]; [| discriminate Hp].
  split; [exact Href |]. split; [reflexivity |]. split; [reflexivity |].
  intros h' t' Hl' Hp'.
  destruct (Hok h' t' Hl') as [(id' & -> & Href') | (jid & ->)]; [| discriminate Hp'].
  congruence.
Qed.

Lemma X4_one_polling_interval_witness :
  reachable LiveRuns.polling
  ∧ timers LiveRuns.polling !! 2 = Some (poll_timer (Some "j-1"))
  ∧ pollRef LiveRuns.polling = Some 2.
Proof.
  assert (reachable LiveRuns.polling) as Hr.
  { exists (LiveRuns.until_grace ++ LiveRuns.grace_to_tick). vm_compute. reflexivity. }
  assert (timers LiveRuns.polling !! 2 = Some (poll_timer (Some "j-1"))) as Hl
    by (vm_compute; reflexivity).
  split; [exact Hr |]. split; [exact Hl |].
  exact (proj1 (X4_one_polling_interval LiveRuns.polling 2 _ Hr Hl eq_refl)).
Defined.

Lemma step_sends_because (e : Event) (s s' : State) :
  step e s = Some s' →
  sent s' = sent s ∨ ∃ r, sent s' = r :: sent s ∧ cause e s r.
Proof.
  intros Hs. step_cases Hs; unfold_handlers;
    repeat case_match; cbn; try (left; reflexivity);
    right; eexists; (split; [reflexivity |]); cbn; eauto 10.
  all: repeat match goal with
         | H : bool_decide _ = true |- _ => apply bool_decide_eq_true in H; subst
         end; eauto 10.
Qed.

(** X5: every request has one cause.  The create request is sent by a
    click on start with a file selected, and carries the profile, the
    derived content type and the file's name; the upload is sent when the
    create reply is parsed, with the content type and the file of that
    click; the start call is sent by the firing of a grace timer; a status
    query is sent when the start call is answered 202 or when the polling
    interval ticks. *)
Theorem X5_request_causes (e : Event) (s s' : State) (r : Request) :
  step e s = Some s' → sent s' = r :: sent s → cause e s r.
Proof.
  intros Hs Hsent. destruct (step_sends_because e s s' Hs) as [E | (r' & E & Hc)].
  - rewrite E in Hsent. apply (f_equal length) in Hsent. cbn in Hsent. lia.
  - rewrite E in Hsent. now injection Hsent as <-.
Qed.

Lemma X5_request_causes_witness :
  cause (Settle 3 (Response 202))
        (default init (run [Fire 1] LiveRuns.in_grace)) (GetJob "j-1").
Proof.
  apply (X5_request_causes _ _
           (default init (run [Fire 1; Settle 3 (Response 202)] LiveRuns.in_grace))).
  - vm_compute. reflexivity.
  - vm_compute. reflexivity.
Defined.

(** X6: when the upload is answered with an error status, the text of
    the response is read and the submission fails with a message made of
    the status code and that text, an empty text if it cannot be read:
    FAILED, busy flag cleared, nothing sent, no timer armed. *)
Theorem X6_upload_failure_message
    (s : State) (p : nat) (jid : option string) (c : nat) (body : Settled) :
  awaiting s !! p = Some (AwUpload jid) → http_ok c = false →
  (∃ t, body = Text t) ∨ (∃ m, body = Rejected m) →
  ∃ s', run [Settle p (Response c); Settle (next_await s) body] s = Some s'
        ∧ status s' = Some "FAILED" ∧ busy s' = false
        ∧ error s' = Some ("Upload failed (" +:+ decimal c +:+ ") "
                           +:+ match body with Text t => t | _ => "" end)
        ∧ sent s' = sent s ∧ timers s' = timers s
        ∧ awaiting s' !! p = None ∧ awaiting s' !! next_await s = None.
Proof.
  intros Hk Hc Hbody. cbn [run]. rewrite (settle_eq _ _ _ _ Hk). unfold resume.
  rewrite Hc.
  set (s0 := withAwaiting (delete p (awaiting s)) (next_await s) s).
  assert (awaiting (suspend (AwUploadText c) s0) !! next_await s = Some (AwUploadText c))
    as Hk1 by apply lookup_insert_eq.
  rewrite (settle_eq _ _ _ _ Hk1). unfold resume.
  destruct Hbody as [[t ->] | [m ->]]; eexists; (split; [reflexivity |]); cbn;
    rewrite delete_insert_eq, !lookup_delete; repeat case_decide;
    split_and!; first [reflexivity | congruence].
Qed.

Lemma X6_upload_failure_message_witness :
  ∃ s', run [Settle 2 (Response 500); Settle 3 (Text "quota exceeded")]
            (default init (run (take 4 LiveRuns.until_grace) init)) = Some s'
        ∧ error s' = Some "Upload failed (500) quota exceeded".
Proof.
  destruct (X6_upload_failure_message
              (default init (run (take 4 LiveRuns.until_grace) init))
              2 (Some "j-1") 500 (Text "quota exceeded"))
    as (s' & Hrun & _ & _ & Herr & _).
  - vm_compute. reflexivity.
  - reflexivity.
  - left. eexists. reflexivity.
  - exists s'. split; [exact Hrun | exact Herr].
Defined.

(** X7: every failure of the submission sequence is final and is told to
    the user: whatever the step at which an activation of start fails,
    the status becomes FAILED, the busy flag is cleared, the error shown
    is the failure's message and is never empty, and the activation sends
    nothing more and arms no timer. *)
Theorem X7_submission_failure_is_final
    (s : State) (p : nat) (k : Await) (v : Settled) (msg : string) :
  awaiting s !! p = Some k → failure_message k v = Some msg →
  msg ≠ ""
  ∧ ∃ s', step (Settle p v) s = Some s'
          ∧ status s' = Some "FAILED" ∧ busy s' = false ∧ error s' = Some msg
          ∧ sent s' = sent s ∧ timers s' = timers s ∧ pollRef s' = pollRef s
          ∧ jobId s' = jobId s ∧ awaiting s' = delete p (awaiting s).
Proof.
  intros Hk Hm. rewrite (settle_eq _ _ _ _ Hk).
  assert (∀ m, message_or_default m ≠ "") as Hne by (intros [| ? ?]; discriminate).
  assert (∀ m, message_or_default (message_or_default m) = message_or_default m)
    as Hidem by (intros [| ? ?]; reflexivity).
  destruct k, v; cbn in Hm; try discriminate Hm; unfold resume;
    repeat match type of Hm with
           | context [if ?b then _ else _] => destruct b; try discriminate Hm
           end;
    injection Hm as <-;
    (split; [first [apply Hne | discriminate] |]);
    eexists; (split; [reflexivity |]); cbn; rewrite ?Hidem; auto 10.
Qed.

Lemma X7_submission_failure_is_final_witness :
  ∃ s', step (Settle 0 (Response 503)) (default init (run (take 2 LiveRuns.until_grace) init))
        = Some s'
        ∧ status s' = Some "FAILED" ∧ error s' = Some "Failed to create job".
Proof.
  destruct (X7_submission_failure_is_final
              (default init (run (take 2 LiveRuns.until_grace) init))
              0 (AwCreate "text/html" law_html) (Response 503) "Failed to create job")
    as (_ & s' & Hs & Hst & _ & Herr & _).
  - vm_compute. reflexivity.
  - reflexivity.
  - exists s'. auto.
Defined.

(** X8: a reply to a status query that was in flight when
    cancelPolling() ran is not discarded: it still stores its status, and
    its result location if it carries one; the busy flag stays cleared
    and nothing is sent. *)
Theorem X8_reply_after_cancel_is_stored
    (s : State) (p : nat) (c : Caller) (id : option string) (d : Json) :
  awaiting s !! p = Some (AwGetJson c id) →
  ∃ s', step (Settle p (Parsed d)) (cancelPolling s) = Some s'
        ∧ status s' = j_status d
        ∧ resultUrl s' = (if truthy (result_url d) then result_url d else resultUrl s)
        ∧ busy s' = false ∧ sent s' = sent s.
Proof.
  intros Hk.
  assert (awaiting (cancelPolling s) !! p = Some (AwGetJson c id)) as Hk'.
  { unfold cancelPolling, clearInterval. now destruct (pollRef s). }
  rewrite (settle_eq _ _ _ _ Hk'). unfold resume, after_getJob, cancelPolling, clearInterval.
  eexists. split; [reflexivity |].
  destruct (pollRef s) eqn:Hp, (truthy (result_url d)), c; cbn;
    try destruct (bool_decide _); cbn; rewrite ?Hp; split_and!; reflexivity.
Qed.

Lemma X8_reply_after_cancel_is_stored_witness :
  ∃ s', step (Settle 6 (Parsed LiveRuns.completed_with_url)) (cancelPolling LiveRuns.at_reply)
        = Some s'
        ∧ status s' = Some "COMPLETED".
Proof.
  destruct (X8_reply_after_cancel_is_stored LiveRuns.at_reply 6 FromTick (Some "j-1")
              LiveRuns.completed_with_url) as (s' & Hs & Hst & _).
  - vm_compute. reflexivity.
  - exists s'. auto.
Defined.

Section ContentType.

Ltac pattern_chars :=
  repeat match goal with
  | |- context [Regex.eq_ci ?c ?x] =>
      rewrite (eq_ci_lower c x) by (cbn; tauto)
  end.

Ltac split_chars :=
  repeat match goal with
  | |- context [Ascii.eqb ?a ?b] => destruct (Ascii.eqb_spec a b)
  end.

Lemma rmatch_xml (t : string) :
  Regex.rmatch re_xml t (fun _ => true) = String.eqb (lower t) ".xml".
Proof.
  unfold re_xml.
  do 5 (destruct t as [| ? t]; [cbn; pattern_chars; split_chars; try reflexivity; congruence |]).
  cbn. pattern_chars. split_chars; try reflexivity; congruence.
Qed.

Lemma test_xml (n : string) : Regex.test re_xml n = true ↔ ends_with_ci ".xml" n.
Proof.
  rewrite test_spec. unfold ends_with_ci.
  split; intros (p & t & E & H); exists p, t; (split; [exact E |]).
  - rewrite rmatch_xml in H. now apply String.eqb_eq.
  - rewrite rmatch_xml. now apply String.eqb_eq.
Qed.

(** X9: the content type sent with the create request and the upload is
    the type the file declares when it declares one; otherwise it is
    application/xml exactly for a name that ends, in any case of letters,
    in .xml, and text/html for every other name. *)
Theorem X9_content_type (f : File.t) :
  (File.type f ≠ "" → contentTypeOf f = File.type f)
  ∧ (File.type f = "" →
     (ends_with_ci ".xml" (File.name f) → contentTypeOf f = "application/xml")
     ∧ (¬ ends_with_ci ".xml" (File.name f) → contentTypeOf f = "text/html")).
Proof.
  unfold contentTypeOf. split.
  - intros Hne. destruct (File.type f); [now destruct Hne | reflexivity].
  - intros ->. destruct (Regex.test re_xml (File.name f)) eqn:Ht.
    + split; [reflexivity |]. intros Hn. destruct Hn. now apply test_xml.
    + split; [| reflexivity]. intros Hx. apply test_xml in Hx. congruence.
Qed.

End ContentType.

Lemma X9_content_type_witness :
  ends_with_ci ".xml" (File.name act_XML) ∧ contentTypeOf act_XML = "application/xml".
Proof.
  assert (ends_with_ci ".xml" (File.name act_XML)) as Hx
    by (exists "Act", ".XML"; split; reflexivity).
  split; [exact Hx |].
  exact (proj1 (proj2 (X9_content_type act_XML) eq_refl) Hx).
Defined.

Lemma step_fresh_awaits (e : Event) (s s' : State) :
  fresh_awaits s → step e s = Some s' → fresh_awaits s'.
Proof.
  intros Hf Hs. step_cases Hs; unfold fresh_awaits; unfold_handlers;
    repeat case_match; cbn; intros p' k';
    rewrite ?lookup_insert, ?lookup_delete; repeat case_decide;
    intros H'; try discriminate H'; try apply Hf in H'; lia.
Qed.

Lemma step_busy_work (e : Event) (s s' : State) :
  timers_ok s → fresh_awaits s → busy_has_work s → step e s = Some s' →
  busy_has_work s'.
Proof.
  intros Hok Hf Hw Hs. step_cases Hs;
    try match goal with
        | Ht : timers s !! _ = Some _ |- _ =>
            destruct (Hok _ _ Ht) as [(? & -> & ?) | (? & ->)]
        end;
    unfold busy_has_work; unfold_handlers; cbn; repeat case_match; cbn;
    intros Hb; try discriminate Hb;
    first
      [ left; eexists _, _; split; [apply lookup_insert_eq | reflexivity]
      | right; eexists _, _; apply lookup_insert_eq
      | destruct (Hw Hb) as [(p' & k' & Hl & Ho) | (h' & t' & Hl)];
        [ left; exists p', k'; split; [| exact Ho];
          rewrite ?lookup_insert, ?lookup_delete; repeat case_decide; subst;
          first [ exact Hl
                | apply Hf in Hl; lia
                | match goal with
                  | Hk : awaiting s !! ?q = Some _ |- _ =>
                      rewrite Hk in Hl; injection Hl as <-; discriminate Ho
                  end ]
        | right; exists h', t'; exact Hl ] ].
Qed.

(** X10: in every reachable state in which the busy flag is set,
    something is still to happen: an activation of start is suspended at
    a request, or a timer (the grace delay or the polling interval) is
    armed.  The flag is never left set with nothing pending. *)
Theorem X10_busy_means_pending (s : State) :
  reachable s → busy s = true →
  (∃ p k, awaiting s !! p = Some k ∧ of_start k = true)
  ∨ (∃ h t, timers s !! h = Some t).
Proof.
  intros [evs Hrun].
  assert (timers_ok init ∧ fresh_awaits init ∧ busy_has_work init) as Hinit.
  { split; [| split].
    - intros h t. cbn. now rewrite lookup_empty.
    - intros p k. cbn. now rewrite lookup_empty.
    - intros Hb. discriminate Hb. }
  enough (timers_ok s ∧ fresh_awaits s ∧ busy_has_work s) as (_ & _ & H) by exact H.
  revert Hrun Hinit. generalize init.
  induction evs as [| e evs IH]; intros s0; cbn.
  - now intros [= <-].
  - destruct (step e s0) as [s1 |] eqn:Hs; [| discriminate].
    intros Hrun (Hok & Hf & Hw). apply (IH s1 Hrun).
    split; [| split].
    + exact (step_timers_ok e s0 s1 Hok Hs).
    + exact (step_fresh_awaits e s0 s1 Hf Hs).
    + exact (step_busy_work e s0 s1 Hok Hf Hw Hs).
Qed.

Lemma X10_busy_means_pending_witness :
  reachable LiveRuns.in_grace ∧ busy LiveRuns.in_grace = true
  ∧ ((∃ p k, awaiting LiveRuns.in_grace !! p = Some k ∧ of_start k = true)
     ∨ (∃ h t, timers LiveRuns.in_grace !! h = Some t)).
Proof.
  assert (reachable LiveRuns.in_grace) as Hr.
  { exists LiveRuns.until_grace. vm_compute. reflexivity. }
  split; [exact Hr |]. split; [reflexivity |].
  exact (X10_busy_means_pending LiveRuns.in_grace Hr eq_refl).
Defined.

End LiveMore.

(** ** The result fetch of the live driver *)

Module ResultViewFacts.
Import ResultView.

Section WithData.
Variable Data : Type.
Implicit Types (s : State Data) (e : Event Data) (v : RSettled Data).

Lemma commit_unchanged (old : option string) s :
  Live.resultUrl (live s) = old → commit old s = s.
Proof. intros H. unfold commit. now rewrite decide_True. Qed.

Lemma step_result_frame q v s s' :
  step (Result q v) s = Some s' → live s' = live s ∧ fetched s' = fetched s.
Proof.
  cbn. destruct (fetching s !! q) as [a |]; [| discriminate]. unfold resume.
  destruct (stage a), v; try discriminate;
    repeat match goal with
           | |- context [if ?b then _ else _] => destruct b
           end;
    intros [= <-]; auto.
Qed.

(** X11: a result is fetched for one reason only: the reply to a status
    query carries a non-empty result_url that differs from the result
    location held so far.  The fetch then goes to that address, once, and
    the payload shown is cleared; a reply that repeats the location held
    does not fetch again, and no other event fetches. *)
Theorem X11_result_fetch_cause e s s' :
  step e s = Some s' → fetched s' ≠ fetched s →
  ∃ p d u, e = Base (Live.Settle p (Live.Parsed d))
           ∧ Live.result_url d = Some u ∧ u ≠ ""
           ∧ Live.resultUrl (live s) ≠ Some u
           ∧ Live.resultUrl (live s') = Some u
           ∧ fetched s' = u :: fetched s
           ∧ resultData s' = None.
Proof.
  intros Hs Hne. destruct e as [e | q v].
  - cbn in Hs. destruct (Live.step e (live s)) as [l |] eqn:Hl; [| discriminate].
    injection Hs as <-. unfold commit in *. cbn [live withLive] in *.
    destruct (decide (Live.resultUrl l = Live.resultUrl (live s))) as [E | N];
      [now destruct Hne |].
    unfold effect in *. cbn [live cleanup withFetching withLive] in *.
    destruct (Live.resultUrl l) as [[| c u] |] eqn:Hu; try (now destruct Hne).
    destruct (LiveFacts.live_completed_by_reply e (live s) l Hl) as [_ H].
    rewrite Hu in H. destruct (H eq_refl N) as (p & d & -> & Hd & _).
    exists p, d, (String c u). split; [reflexivity |]. split; [exact Hd |].
    split; [discriminate |]. split; [congruence |]. cbn. auto.
  - destruct (step_result_frame q v s s' Hs) as [_ E]. now destruct Hne.
Qed.

Lemma step_view_ok e s s' : view_ok s → step e s = Some s' → view_ok s'.
Proof.
  intros Hv Hs. destruct e as [e | q v].
  - cbn in Hs. destruct (Live.step e (live s)) as [l |] eqn:Hl; [| discriminate].
    injection Hs as <-. unfold commit. cbn [live withLive].
    destruct (decide (Live.resultUrl l = Live.resultUrl (live s))) as [E | N].
    + intros q a Hq Ha. cbn in *. rewrite E. apply (Hv q a Hq Ha).
    + assert (∀ q a, fetching (cleanup (withLive l s)) !! q = Some a → aborted a = true)
        as Hall.
      { intros q a. cbn. rewrite lookup_fmap.
        destruct (fetching s !! q); [intros [= <-]; reflexivity | discriminate]. }
      unfold effect. cbn [live cleanup withFetching withLive].
      destruct (Live.resultUrl l) as [[| c u] |] eqn:Hu.
      * intros q a Hq Ha. rewrite (Hall q a Hq) in Ha. discriminate Ha.
      * assert (∀ q a, fetching (fetchResult (String c u)
                                   (setResultData None (cleanup (withLive l s)))) !! q
                       = Some a →
                       aborted a = false → q = next_fetch s ∧ url a = String c u) as Hnew.
        { intros q a. cbn. rewrite lookup_insert. case_decide as Hq.
          - intros [= <-] _. auto.
          - rewrite lookup_fmap. destruct (fetching s !! q); [| discriminate].
            intros [= <-]. discriminate. }
        intros q a Hq Ha. destruct (Hnew q a Hq Ha) as [-> Ea].
        split; [cbn; now rewrite Hu, Ea |]. split; [reflexivity |].
        intros q' a' Hq' Ha'. now destruct (Hnew q' a' Hq' Ha').
      * intros q a Hq Ha. rewrite (Hall q a Hq) in Ha. discriminate Ha.
  - cbn in Hs. destruct (fetching s !! q) as [a |] eqn:Hq; [| discriminate].
    unfold resume in Hs.
    assert (view_ok (withFetching (delete q (fetching s)) s)) as Hdel.
    { intros q1 a1. cbn. rewrite lookup_delete. case_decide; [discriminate |].
      intros H1 Ha1. destruct (Hv q1 a1 H1 Ha1) as (E1 & E2 & Hu).
      split; [exact E1 |]. split; [exact E2 |].
      intros q2 a2. rewrite lookup_delete. case_decide; [discriminate |]. apply Hu. }
    destruct (stage a) eqn:Hst, v; try discriminate Hs.
    + injection Hs as <-. exact Hdel.
    + destruct (http_ok code); injection Hs as <-; [| exact Hdel].
      intros q1 a1. cbn. rewrite lookup_insert. case_decide as Hq1.
      * intros [= <-] Ha1. cbn in Ha1. subst q1.
        destruct (Hv q a Hq Ha1) as (E1 & E2 & Hu).
        split; [exact E1 |]. split; [exact E2 |].
        intros q2 a2. rewrite lookup_insert. case_decide; [auto |].
        intros H2 Ha2. apply (Hu q2 a2 H2 Ha2).
      * intros H1 Ha1. destruct (Hv q1 a1 H1 Ha1) as (E1 & E2 & Hu).
        split; [exact E1 |]. split; [exact E2 |].
        intros q2 a2. rewrite lookup_insert. case_decide as Hq2.
        -- intros [= <-] Ha2. cbn in Ha2. subst q2. apply (Hu q a Hq Ha2).
        -- apply Hu.
    + injection Hs as <-. exact Hdel.
    + destruct (aborted a) eqn:Ha; injection Hs as <-; [exact Hdel |].
      intros q1 a1. cbn. rewrite lookup_delete. case_decide as Hq1; [discriminate |].
      intros H1 Ha1. destruct (Hv q a Hq Ha) as (_ & _ & Hu).
      destruct Hq1. symmetry. apply (Hu q1 a1 H1 Ha1).
Qed.

Lemma reachable_view_ok s : reachable s → view_ok s.
Proof.
  intros [evs H].
  assert (view_ok (Data := Data) init) as Hinit
    by (intros q a; cbn; now rewrite lookup_empty).
  revert H Hinit. generalize (init (Data := Data)).
  induction evs as [| e evs IH]; intros s0; cbn.
  - now intros [= <-].
  - destruct (step e s0) as [s1 |] eqn:Hs; [| discriminate].
    intros H Hv. apply (IH s1 H). exact (step_view_ok e s0 s1 Hv Hs).
Qed.

(** X12: a payload is shown only if it was fetched from the result
    location held at the moment it arrives.  When the body of a result
    arrives, it is stored if its run of the effect has not been cleaned
    up, and then the location held is the address it was fetched from; a
    body fetched for an earlier location is dropped and the payload stays
    as it is. *)
Theorem X12_only_current_result_is_stored s q a d :
  reachable s → fetching s !! q = Some a → stage a = AtJson →
  ∃ s', step (Result q (RParsed d)) s = Some s'
        ∧ if aborted a
          then resultData s' = resultData s
          else resultData s' = Some d ∧ Live.resultUrl (live s) = Some (url a).
Proof.
  intros Hr Hq Hst. cbn. rewrite Hq. unfold resume. rewrite Hst.
  destruct (aborted a) eqn:Ha; eexists; (split; [reflexivity |]); [reflexivity |].
  split; [reflexivity |].
  now destruct (reachable_view_ok s Hr q a Hq Ha).
Qed.

(** X13: while the fetch for the location held is under way the payload
    is empty, there is no second such fetch, and if it fails (rejected
    request, error response, unreadable body) nothing is told to the
    user: status, error and location stay, the payload stays empty and
    nothing is fetched again. *)
Theorem X13_result_fetch_in_flight s q a :
  reachable s → fetching s !! q = Some a → aborted a = false →
  resultData s = None
  ∧ Live.resultUrl (live s) = Some (url a)
  ∧ (∀ q' a', fetching s !! q' = Some a' → aborted a' = false → q' = q)
  ∧ ∀ v, fetch_fails a v = true →
         ∃ s', step (Result q v) s = Some s'
               ∧ live s' = live s ∧ resultData s' = None
               ∧ fetched s' = fetched s ∧ fetching s' !! q = None.
Proof.
  intros Hr Hq Ha. destruct (reachable_view_ok s Hr q a Hq Ha) as (E1 & E2 & Hu).
  split; [exact E2 |]. split; [exact E1 |]. split; [exact Hu |].
  intros v Hf. cbn [step]. rewrite Hq. unfold resume, fetch_fails in *.
  destruct (stage a), v; try discriminate Hf.
  - eexists. split; [reflexivity |]. cbn. rewrite lookup_delete_eq. auto.
  - apply negb_true_iff in Hf. rewrite Hf. eexists. split; [reflexivity |].
    cbn. rewrite lookup_delete_eq. auto.
  - eexists. split; [reflexivity |]. cbn. rewrite lookup_delete_eq. auto.
Qed.

End WithData.

Lemma X11_result_fetch_cause_witness :
  ∃ p d u, Base (Data := Sim.Payload)
             (Live.Settle 6 (Live.Parsed LiveRuns.completed_with_url))
           = Base (Live.Settle p (Live.Parsed d))
           ∧ Live.result_url d = Some u
           ∧ fetched (default (init (Data := Sim.Payload))
                        (run (map Base LiveRuns.until_done) init))
             = [u].
Proof.
  destruct (X11_result_fetch_cause Sim.Payload
              (Base (Live.Settle 6 (Live.Parsed LiveRuns.completed_with_url)))
              (default init (run (map Base LiveRuns.until_reply) init))
              (default init (run (map Base LiveRuns.until_done) init)))
    as (p & d & u & E & Hd & _ & _ & _ & Hf & _).
  - vm_compute. reflexivity.
  - vm_compute. discriminate.
  - exists p, d, u. split; [exact E |]. split; [exact Hd |].
    rewrite Hf. vm_compute. reflexivity.
Defined.

Lemma X12_only_current_result_is_stored_witness :
  reachable loading
  ∧ ∃ s', step (Result 0 (RParsed (Sim.mock "law.html" MEDIUM))) loading = Some s'
          ∧ resultData s' = Some (Sim.mock "law.html" MEDIUM).
Proof.
  assert (reachable loading) as Hr.
  { exists (map Base LiveRuns.until_done ++ [Result 0 (RResponse 200)]).
    vm_compute. reflexivity. }
  split; [exact Hr |].
  destruct (X12_only_current_result_is_stored Sim.Payload loading 0
              {| stage := AtJson; url := "https://bucket/result/j-1.json"; aborted := false |}
              (Sim.mock "law.html" MEDIUM) Hr)
    as (s' & Hs & Hd & _).
  - vm_compute. reflexivity.
  - reflexivity.
  - exists s'. auto.
Defined.

Lemma X13_result_fetch_in_flight_witness :
  reachable loading ∧ resultData loading = None.
Proof.
  assert (reachable loading) as Hr.
  { exists (map Base LiveRuns.until_done ++ [Result 0 (RResponse 200)]).
    vm_compute. reflexivity. }
  split; [exact Hr |].
  refine (proj1 (X13_result_fetch_in_flight Sim.Payload loading 0
                   {| stage := AtJson; url := "https://bucket/result/j-1.json";
                      aborted := false |} Hr _ eq_refl)).
  vm_compute. reflexivity.
Defined.

End ResultViewFacts.

(** ** The simulated driver, further properties *)

Module SimMore.
Import Sim SimSpec SimTerms SimFacts.

(** X14: the progress shown reaches its cap of 96 exactly at the tick
    whose number is ticks (67), not before, and stays there for every
    later tick. *)
Theorem X14_progress_cap_at_last_tick (k : Z) :
  (pct k = 96 ↔ ticks ≤ k)%Z.
Proof.
  unfold pct, round_div. change ticks with 67%Z.
  pose proof (Z.div_mod (2 * (k * 96) + 67) (2 * 67) ltac:(lia)) as Hd.
  pose proof (Z.mod_pos_bound (2 * (k * 96) + 67) (2 * 67) ltac:(lia)) as Hb.
  lia.
Qed.

Lemma start_refs (now : Z) (rnd : string) (s : State) (f : File.t) :
  file s = Some f →
  timersRef (start now rnd s) = (timersRef s ++ [next_timer s]) ++ [S (S (next_timer s))]
  ∧ next_timer (start now rnd s) = S (S (S (next_timer s)))
  ∧ jobId (start now rnd s) = Some (mkJobId now rnd)
  ∧ risk (start now rnd s) = risk s.
Proof.
  intros Hf. unfold start. rewrite Hf. cbn. auto.
Qed.

Lemma cancel_empty (s : State) : listed s → timers (cancelPolling s) = ∅.
Proof.
  intros Hl. apply map_eq. intros h. rewrite lookup_empty.
  destruct (timers (cancelPolling s) !! h) as [t |] eqn:E; [exfalso | reflexivity].
  apply lookup_clearAll in E as [E Hi]. apply lookup_clearAll in E as [E Ht].
  destruct (Hl h t E) as [_ Hin]. destruct (is_tick t); contradiction.
Qed.

Lemma listed_subset (s s' : State) :
  (∀ h t, timers s' !! h = Some t → timers s !! h = Some t) →
  next_timer s' = next_timer s → intervalsRef s' = intervalsRef s →
  timersRef s' = timersRef s → listed s → listed s'.
Proof.
  intros Hsub En Ei Et Hl h t H. rewrite En, Ei, Et. apply Hl, Hsub, H.
Qed.

Lemma complete_fields (f : File.t) (r : Risk) (blob : string) (s : State) :
  timers (complete f r blob s)
  = <[next_timer s := {| delay := 2500; repeat := false; callback := CbConfetti |}]>
      (timers (clearAll (intervalsRef s) s))
  ∧ next_timer (complete f r blob s) = S (next_timer s)
  ∧ intervalsRef (complete f r blob s) = []
  ∧ timersRef (complete f r blob s) = timersRef s ++ [next_timer s]
  ∧ busy (complete f r blob s) = false.
Proof. unfold complete. cbn. auto. Qed.

Lemma complete_listed (f : File.t) (r : Risk) (blob : string) (s s0 : State) :
  listed s →
  (∀ h t, timers s0 !! h = Some t → timers s !! h = Some t) →
  next_timer s0 = next_timer s → intervalsRef s0 = intervalsRef s →
  timersRef s0 = timersRef s →
  listed (complete f r blob s0)
  ∧ ∀ h t, timers (complete f r blob s0) !! h = Some t →
           is_tick t = false
           ∧ (is_completion t = true → timers s0 !! h = Some t).
Proof.
  intros Hl Hsub En Ei Et.
  destruct (complete_fields f r blob s0) as (Ft & Fn & Fi & Fr & _).
  assert (∀ h t, timers (complete f r blob s0) !! h = Some t →
                 (h = next_timer s ∧ t = {| delay := 2500; repeat := false;
                                            callback := CbConfetti |})
                 ∨ (timers s0 !! h = Some t ∧ h ∉ intervalsRef s)) as Hc.
  { intros h t. rewrite Ft, lookup_insert, En. case_decide.
    - intros [= <-]. auto.
    - intros H'. right. rewrite <- Ei. apply (lookup_clearAll _ s0 h t H'). }
  split.
  - intros h t H. rewrite Fn, Fi, Fr, En, Et.
    destruct (Hc h t H) as [[-> ->] | [H0 Hn]].
    + split; [lia |]. apply elem_of_app. right. now apply list_elem_of_singleton.
    + destruct (Hl h t (Hsub h t H0)) as [Hlt Hin].
      destruct (is_tick t); [contradiction |].
      split; [lia |]. apply elem_of_app. now left.
  - intros h t H. destruct (Hc h t H) as [[-> ->] | [H0 Hn]].
    + split; [reflexivity | discriminate].
    + destruct (Hl h t (Hsub h t H0)) as [_ Hin].
      destruct (is_tick t); [contradiction | auto].
Qed.

Lemma step_listed (e : Event) (s s' : State) :
  listed s → step e s = Some s' → listed s'.
Proof.
  intros Hl Hs. destruct e as [f | r | now rnd | | h blob]; cbn in Hs.
  - injection Hs as <-. revert Hl. apply listed_subset; unfold pick;
      destruct (negb _); auto.
  - injection Hs as <-. revert Hl. apply listed_subset; auto.
  - injection Hs as <-. destruct (file s) as [f |] eqn:Hf.
    + destruct (start_fields now rnd s f Hf) as (Et & Ei & _ & _).
      destruct (start_refs now rnd s f Hf) as (Er & En & _ & _).
      intros h t. rewrite Et, Ei, Er, En, !lookup_insert.
      repeat case_decide; subst.
      * intros [= <-]. cbn. split; [lia |]. apply elem_of_app. right.
        now apply list_elem_of_singleton.
      * intros [= <-]. cbn. split; [lia |]. apply elem_of_app. right.
        now apply list_elem_of_singleton.
      * intros [= <-]. cbn. split; [lia |]. apply elem_of_app. left.
        apply elem_of_app. right. now apply list_elem_of_singleton.
      * intros Hold. destruct (Hl h t Hold) as [Hlt Hin]. split; [lia |].
        destruct (is_tick t); [apply elem_of_app; now left |].
        apply elem_of_app. left. apply elem_of_app. now left.
    + revert Hl. apply listed_subset; unfold start; rewrite Hf; auto.
  - injection Hs as <-. intros h t. rewrite (cancel_empty s Hl), lookup_empty.
    discriminate.
  - destruct (timers s !! h) as [t |] eqn:Ht; [| discriminate].
    injection Hs as <-.
    set (s0 := if repeat t then s else withTimers (delete h (timers s)) (next_timer s) s).
    assert ((∀ h' t', timers s0 !! h' = Some t' → timers s !! h' = Some t')
            ∧ next_timer s0 = next_timer s ∧ intervalsRef s0 = intervalsRef s
            ∧ timersRef s0 = timersRef s) as (Hsub & En & Ei & Er).
    { unfold s0. destruct (repeat t); cbn; split; auto.
      intros h' t'. rewrite lookup_delete. case_decide; [discriminate | auto]. }
    unfold run_callback. destruct (callback t) as [| k | f r |] eqn:Hcb.
    + apply (listed_subset s); auto.
    + intros h' t'. cbn. rewrite lookup_insert, En, Ei, Er. case_decide.
      * intros [= <-]. subst h'. cbn. destruct (Hl h t Ht) as [Hlt Hin].
        unfold is_tick in Hin. rewrite Hcb in Hin. auto.
      * intros H'. apply Hl, Hsub, H'.
    + apply (complete_listed f r blob s s0); auto.
    + apply (listed_subset s); auto.
Qed.

Lemma reachable_listed (s : State) : reachable s → listed s.
Proof.
  intros [evs H].
  assert (listed init) as Hinit by (intros h t; cbn; now rewrite lookup_empty).
  revert H Hinit. generalize init. induction evs as [| e evs IH]; intros s0; cbn.
  - now intros [= <-].
  - destruct (step e s0) as [s1 |] eqn:Hs; [| discriminate].
    intros H Hl. apply (IH s1 H). exact (step_listed e s0 s1 Hl Hs).
Qed.

(** X15: in the simulated driver cancelPolling() disarms everything,
    however the state was reached: afterwards no timer is armed, so no
    timer can fire, the busy flag is cleared, and status, progress, job
    id and result are as they were before. *)
Theorem X15_cancel_disarms_everything (s : State) :
  reachable s →
  timers (cancelPolling s) = ∅
  ∧ (∀ h blob, step (Fire h blob) (cancelPolling s) = None)
  ∧ busy (cancelPolling s) = false
  ∧ status (cancelPolling s) = status s
  ∧ progress (cancelPolling s) = progress s
  ∧ jobId (cancelPolling s) = jobId s
  ∧ resultData (cancelPolling s) = resultData s.
Proof.
  intros Hr. pose proof (cancel_empty s (reachable_listed s Hr)) as He.
  split; [exact He |]. split; [| cbn; auto 10].
  intros h blob. cbn [step]. rewrite He, lookup_empty. reflexivity.
Qed.

Lemma X15_cancel_disarms_everything_witness :
  reachable SimRuns.after_two_ticks
  ∧ timers (cancelPolling SimRuns.after_two_ticks) = ∅
  ∧ status (cancelPolling SimRuns.after_two_ticks) = Some "RUNNING".
Proof.
  assert (reachable SimRuns.after_two_ticks) as Hr.
  { exists SimRuns.two_ticks. vm_compute. reflexivity. }
  destruct (X15_cancel_disarms_everything SimRuns.after_two_ticks Hr)
    as (He & _ & _ & Hst & _).
  split; [exact Hr |]. split; [exact He |]. rewrite Hst. vm_compute. reflexivity.
Defined.

Lemma job_frame (s s' : State) :
  timers s' = timers s → busy s' = busy s →
  one_completion s ∧ (busy s = true → job_pending s) ∧ (busy s = false → nothing_pending s) →
  one_completion s' ∧ (busy s' = true → job_pending s')
  ∧ (busy s' = false → nothing_pending s').
Proof.
  unfold one_completion, job_pending, nothing_pending, ticking.
  intros -> ->. auto.
Qed.

Lemma step_job_inv (e : Event) (s s' : State) :
  sim_inv s → job_inv s → (is_start e = true → busy s = false) →
  step e s = Some s' → job_inv s'.
Proof.
  intros Hsim (Hl & Hc & Ho & Hp & Hn) Hoff Hs.
  assert (listed s') as Hl' by exact (step_listed e s s' Hl Hs).
  assert (completions_ok s') as Hc'.
  { now destruct (step_sim_inv e s s' Hsim Hoff Hs) as (_ & ? & _). }
  enough (one_completion s' ∧ (busy s' = true → job_pending s')
          ∧ (busy s' = false → nothing_pending s')) as (Ho' & Hp' & Hn')
    by exact (conj Hl' (conj Hc' (conj Ho' (conj Hp' Hn')))).
  destruct e as [f | r | now rnd | | h blob]; cbn in Hs.
  - injection Hs as <-. apply (job_frame s); auto; unfold pick; destruct (negb _); auto.
  - injection Hs as <-. apply (job_frame s); auto.
  - injection Hs as <-. specialize (Hn (Hoff eq_refl)).
    destruct (file s) as [f |] eqn:Hf.
    + destruct (start_fields now rnd s f Hf) as (Et & _ & _ & Eb).
      unfold one_completion, job_pending, nothing_pending, ticking.
      rewrite Et, Eb. split; [| split; [| discriminate]].
      * assert (∀ h t, <[S (S (next_timer s)):={| delay := totalMs; repeat := false;
                                                  callback := CbToComplete f (risk s) |}]>
                         (<[S (next_timer s):={| delay := tickMs; repeat := true;
                                                 callback := CbTick 0 |}]>
                            (<[next_timer s:={| delay := 900; repeat := false;
                                                callback := CbToRunning |}]> (timers s)))
                       !! h = Some t →
                       is_completion t = true → h = S (S (next_timer s))) as Hat.
        { intros h t. rewrite !lookup_insert. repeat case_decide; subst; auto.
          - intros [= <-]. discriminate.
          - intros [= <-]. discriminate.
          - intros Hold Hcomp. destruct (Hn h t Hold) as [_ Hnc]. congruence. }
        intros h h' t t' H1 H2 C1 C2.
        rewrite (Hat h t H1 C1), (Hat h' t' H2 C2). reflexivity.
      * intros _. split.
        -- eexists _, _. split; [apply lookup_insert_eq | reflexivity].
        -- exists (S (next_timer s)). eexists.
           split; [rewrite lookup_insert_ne by lia; apply lookup_insert_eq | reflexivity].
    + apply (job_frame s); [unfold start; now rewrite Hf .. | auto].
  - injection Hs as <-.
    assert (timers (cancelPolling s) = ∅) as He by exact (cancel_empty s Hl).
    unfold one_completion, job_pending, nothing_pending, ticking. rewrite He.
    split; [| split].
    + intros h h' t t' H1. rewrite lookup_empty in H1. discriminate H1.
    + discriminate.
    + intros _ h t H1. rewrite lookup_empty in H1. discriminate H1.
  - destruct (timers s !! h) as [t |] eqn:Ht; [| discriminate].
    injection Hs as <-.
    set (s0 := if repeat t then s else withTimers (delete h (timers s)) (next_timer s) s).
    assert ((∀ h' t', timers s0 !! h' = Some t' → timers s !! h' = Some t')
            ∧ (∀ h', h' ≠ h → timers s0 !! h' = timers s !! h')
            ∧ next_timer s0 = next_timer s ∧ intervalsRef s0 = intervalsRef s
            ∧ timersRef s0 = timersRef s ∧ busy s0 = busy s)
      as (Hsub & Hoth & En & Ei & Er & Eb).
    { unfold s0. destruct (repeat t); cbn; split_and!; auto.
      - intros h' t'. rewrite lookup_delete. case_decide; [discriminate | auto].
      - intros h' Hne. now apply lookup_delete_ne. }
    assert (is_tick t = false → is_completion t = false →
            ∀ s1, timers s1 = timers s0 → busy s1 = busy s →
                  one_completion s1 ∧ (busy s1 = true → job_pending s1)
                  ∧ (busy s1 = false → nothing_pending s1)) as Hharmless.
    { intros Hnt Hncp s1 E1 E2.
      unfold one_completion, job_pending, nothing_pending, ticking. rewrite E1, E2.
      split; [| split].
      - intros h1 h2 t1 t2 H1 H2. apply Ho; auto.
      - intros Hb. destruct (Hp Hb) as [(hc & tc & Hlc & Hcc) (ht & tt & Hlt & Htt)].
        split.
        + exists hc, tc. split; [| exact Hcc]. rewrite Hoth; [exact Hlc |].
          intros ->. congruence.
        + exists ht, tt. split; [| exact Htt]. rewrite Hoth; [exact Hlt |].
          intros ->. congruence.
      - intros Hb h1 t1 H1. apply (Hn Hb h1 t1), Hsub, H1. }
    unfold run_callback. destruct (callback t) as [| k | f r |] eqn:Hcb.
    + apply Hharmless; auto; unfold is_tick, is_completion; now rewrite Hcb.
    + assert (is_tick t = true) as Htick by (unfold is_tick; now rewrite Hcb).
      assert (is_completion t = false) as Hnoc by (unfold is_completion; now rewrite Hcb).
      unfold one_completion, job_pending, nothing_pending, ticking. cbn.
      rewrite Eb. split; [| split].
      * intros h1 h2 t1 t2. rewrite !lookup_insert. repeat case_decide; subst;
          intros H1 H2 C1 C2;
          try (injection H1 as <-; discriminate C1);
          try (injection H2 as <-; discriminate C2).
        apply (Ho h1 h2 t1 t2); auto.
      * intros Hb. destruct (Hp Hb) as [(hc & tc & Hlc & Hcc) _]. split.
        -- exists hc, tc. split; [| exact Hcc]. rewrite lookup_insert_ne.
           ++ rewrite Hoth; [exact Hlc |]. intros ->. congruence.
           ++ intros ->. congruence.
        -- exists h. eexists. split; [apply lookup_insert_eq | reflexivity].
      * intros Hb. destruct (Hn Hb h t Ht) as [Hnt _]. congruence.
    + assert (repeat t = false) as Hrep by (now rewrite (Hc h t f r Ht Hcb)).
      assert (timers s0 !! h = None) as Hgone.
      { unfold s0. rewrite Hrep. cbn. apply lookup_delete_eq. }
      destruct (complete_listed f r blob s s0 Hl Hsub En Ei Er) as [_ Hafter].
      destruct (complete_fields f r blob s0) as (_ & _ & _ & _ & Ebusy).
      assert (nothing_pending (complete f r blob s0)) as Hnone.
      { intros h1 t1 H1. destruct (Hafter h1 t1 H1) as [Hnt Hcomp].
        split; [exact Hnt |]. destruct (is_completion t1) eqn:C1; [| reflexivity].
        pose proof (Hcomp eq_refl) as H0.
        assert (h1 = h) as ->.
        { apply (Ho h1 h t1 t); auto. unfold is_completion. now rewrite Hcb. }
        rewrite Hgone in H0. discriminate H0. }
      split; [| split].
      * intros h1 h2 t1 t2 H1 _ C1. destruct (Hnone h1 t1 H1) as [_ Hx]. congruence.
      * rewrite Ebusy. discriminate.
      * intros _. exact Hnone.
    + apply Hharmless; auto; unfold is_tick, is_completion; now rewrite Hcb.
Qed.

(** X16: in every state the page can reach, the busy flag is set exactly
    while a job is under way: when it is set, the completion timer and
    the interval of the job are armed, so the job can still finish; when
    it is clear, no interval and no completion timer is armed. *)
Theorem X16_busy_iff_job_under_way (s : State) :
  ui_reachable s →
  (busy s = true → job_pending s) ∧ (busy s = false → nothing_pending s).
Proof.
  intros Hr.
  enough (sim_inv s ∧ job_inv s) as (_ & _ & _ & _ & Hp & Hn) by auto.
  destruct Hr as [evs H].
  assert (sim_inv init ∧ job_inv init) as Hinit.
  { split; [apply ui_reachable_sim_inv; now exists [] |].
    assert (∀ h (t : Timer), timers init !! h = Some t → False) as Hno
      by (intros h t; cbn; now rewrite lookup_empty).
    split; [intros h t H0; destruct (Hno h t H0) |].
    split; [intros h t f r H0; destruct (Hno h t H0) |].
    split; [intros h h' t t' H0; destruct (Hno h t H0) |].
    split; [discriminate |]. intros _ h t H0. destruct (Hno h t H0). }
  revert H Hinit. generalize init. induction evs as [| e evs IH]; intros s0; cbn.
  - now intros [= <-].
  - destruct (offered e s0) eqn:Hoff; [| discriminate].
    destruct (step e s0) as [s1 |] eqn:Hs; [| discriminate].
    intros H [Hsim Hjob]. apply (IH s1 H).
    assert (is_start e = true → busy s0 = false) as Hgate.
    { intros He. destruct e; try discriminate He. cbn in Hoff.
      apply andb_true_iff in Hoff as [Hb _]. now apply negb_true_iff in Hb. }
    split.
    + exact (step_sim_inv e s0 s1 Hsim Hgate Hs).
    + exact (step_job_inv e s0 s1 Hsim Hjob Hgate Hs).
Qed.

Lemma X16_busy_iff_job_under_way_witness :
  ui_reachable SimRuns.after_two_ticks ∧ busy SimRuns.after_two_ticks = true
  ∧ job_pending SimRuns.after_two_ticks.
Proof.
  assert (ui_reachable SimRuns.after_two_ticks) as Hr.
  { exists SimRuns.two_ticks. vm_compute. reflexivity. }
  split; [exact Hr |]. split; [reflexivity |].
  exact (proj1 (X16_busy_iff_job_under_way SimRuns.after_two_ticks Hr) eq_refl).
Defined.



End SimMore.

(** ** The simulated driver under the browser's order of timers *)

Module SimOrderFacts.
Import Sim SimSpec SimTerms SimOrder SimFacts SimMore.

(** The order matters: were the completion timer to fire before the
    [toRunning] timer of the same click, the status would fall back to
    RUNNING with the result location set.  The browser's order refuses
    that schedule, and allows two whole submissions in a row, the
    confetti timer of the first firing before or after the second click. *)
Example order_of_timers :
  (∃ s, run_ui [Pick (Some law_html); Start 1762041600000 "0.k3f9x2p7c1m";
                Fire 3 "a1"; Fire 1 ""] init = Some s
        ∧ status s = Some "RUNNING" ∧ truthy (resultUrl s) = true)
  ∧ run_page [Pick (Some law_html); Start 1762041600000 "0.k3f9x2p7c1m";
              Fire 3 "a1"] init = None
  ∧ is_Some (run_page [Pick (Some law_html);
                       Start 1762041600000 "0.k3f9x2p7c1m";
                       Fire 1 ""; Fire 2 ""; Fire 3 "a1"; Fire 4 "";
                       Start 1762041609500 "0.k3f9x2zz8qd";
                       Fire 5 ""; Fire 6 ""; Fire 7 "b2"] init)
  ∧ is_Some (run_page [Pick (Some law_html);
                       Start 1762041600000 "0.k3f9x2p7c1m";
                       Fire 1 ""; Fire 2 ""; Fire 3 "a1";
                       Start 1762041609500 "0.k3f9x2zz8qd";
                       Fire 5 ""; Fire 4 ""; Fire 6 ""; Fire 7 "b2"] init).
Proof.
  split; [eexists; split; [vm_compute; reflexivity |]; split; reflexivity |].
  split; [vm_compute; reflexivity |].
  split; vm_compute; eexists; reflexivity.
Qed.

Lemma in_order_spec (h : nat) (blob : string) (s : State) (t : Timer) :
  in_order (Fire h blob) s = true → timers s !! h = Some t →
  ∀ h' t', timers s !! h' = Some t' → h' < h → repeat t' = false →
           (delay t < delay t')%Z.
Proof.
  unfold in_order. intros H Hl. rewrite Hl in H. apply bool_decide_eq_true in H.
  intros h' t' Hl' Hlt Hrep. specialize (H h' t' Hl'). cbv beta in H.
  unfold runs_before in H. apply Nat.ltb_lt in Hlt. rewrite Hlt, Hrep in H.
  cbn in H. now apply Z.leb_gt in H.
Qed.

Lemma start_status (now : Z) (rnd : string) (s : State) (f : File.t) :
  file s = Some f →
  status (start now rnd s) = Some "PENDING" ∧ resultUrl (start now rnd s) = None.
Proof. intros Hf. unfold start. rewrite Hf. cbn. auto. Qed.

Lemma complete_status (f : File.t) (r : Risk) (blob : string) (s : State) :
  status (complete f r blob s) = Some "COMPLETED"
  ∧ resultUrl (complete f r blob s) = Some ("blob:" +:+ blob).
Proof. unfold complete. cbn. auto. Qed.

Lemma order_frame (s s' : State) :
  status s' = status s → resultUrl s' = resultUrl s → timers s' = timers s →
  order_inv s → order_inv s'.
Proof. unfold order_inv. intros -> -> ->. auto. Qed.

Lemma job_inv_init : job_inv init.
Proof.
  assert (∀ h (t : Timer), timers init !! h = Some t → False) as Hno
    by (intros h t; cbn; now rewrite lookup_empty).
  split; [intros h t H0; destruct (Hno h t H0) |].
  split; [intros h t f r H0; destruct (Hno h t H0) |].
  split; [intros h h' t t' H0; destruct (Hno h t H0) |].
  split; [discriminate |]. intros _ h t H0. destruct (Hno h t H0).
Qed.

Lemma order_inv_init : order_inv init.
Proof.
  split; [split; discriminate |].
  intros h t. cbn. rewrite lookup_empty. discriminate.
Qed.

(** Only the firing of a completion timer newly sets COMPLETED or a
    non-empty result location. *)
Lemma set_only_by_completion (e : Event) (s s' : State) :
  step e s = Some s' →
  (status s' = Some "COMPLETED" ∧ status s' ≠ status s)
  ∨ (truthy (resultUrl s') = true ∧ resultUrl s' ≠ resultUrl s) →
  ∃ h blob t f r, e = Fire h blob ∧ timers s !! h = Some t
                  ∧ callback t = CbToComplete f r.
Proof.
  intros Hs Hnew.
  assert (status s' = status s → resultUrl s' = resultUrl s → False) as Hsame.
  { intros E1 E2. destruct Hnew as [[_ H] | [_ H]]; auto. }
  destruct e as [f | r | now rnd | | h blob]; cbn in Hs.
  - injection Hs as <-. destruct Hsame; unfold pick; destruct (negb _); reflexivity.
  - injection Hs as <-. destruct Hsame; reflexivity.
  - injection Hs as <-. exfalso. revert Hnew. unfold start. destruct (file s); cbn.
    + intros [[H _] | [H _]]; discriminate H.
    + intros [[_ H] | [H _]]; [now destruct H | discriminate H].
  - injection Hs as <-. destruct Hsame; reflexivity.
  - destruct (timers s !! h) as [t |] eqn:Hl; [| discriminate].
    injection Hs as <-. unfold run_callback in *.
    destruct (callback t) as [| k | f r |] eqn:Hcb.
    + exfalso. revert Hnew.
      destruct (repeat t); cbn; (intros [[H _] | [_ H]]; [discriminate H | now destruct H]).
    + destruct Hsame; destruct (repeat t); reflexivity.
    + exists h, blob, t, f, r. auto.
    + destruct Hsame; destruct (repeat t); reflexivity.
Qed.

(** The firing of an armed completion timer sets COMPLETED and the result
    location together. *)
Lemma completion_sets_both
    (s : State) (h : nat) (blob : string) (t : Timer) (f : File.t) (r : Risk) :
  timers s !! h = Some t → callback t = CbToComplete f r →
  ∃ s', step (Fire h blob) s = Some s'
        ∧ status s' = Some "COMPLETED"
        ∧ resultUrl s' = Some ("blob:" +:+ blob)
        ∧ truthy (resultUrl s') = true.
Proof.
  intros Hl Hcb. cbn [step]. rewrite Hl. unfold run_callback. rewrite Hcb.
  eexists. split; [reflexivity |].
  destruct (complete_status f r blob
              (if repeat t then s else withTimers (delete h (timers s)) (next_timer s) s))
    as [Es Eu].
  split; [exact Es |]. split; [exact Eu |]. rewrite Eu. reflexivity.
Qed.

Lemma step_order_inv (e : Event) (s s' : State) :
  job_inv s → order_inv s → offered e s = true → in_order e s = true →
  step e s = Some s' → order_inv s'.
Proof.
  intros (Hl & Hc & Ho & Hp & Hn) [Ha Hb] Hoff Hord Hs.
  destruct e as [f | r | now rnd | | h blob]; cbn in Hs.
  - injection Hs as <-. apply (order_frame s); [| | | exact (conj Ha Hb)];
      unfold pick; destruct (negb _); reflexivity.
  - injection Hs as <-. apply (order_frame s); [reflexivity .. | exact (conj Ha Hb)].
  - injection Hs as <-. cbn in Hoff. apply andb_true_iff in Hoff as [Hb0 Hf].
    apply negb_true_iff in Hb0. apply bool_decide_eq_true in Hf. destruct Hf as [f Hf].
    specialize (Hn Hb0).
    destruct (start_fields now rnd s f Hf) as (Et & _).
    destruct (start_status now rnd s f Hf) as (Es & Eu).
    unfold order_inv. rewrite Es, Eu, Et. split; [split; discriminate |].
    intros h t Hlk Htr. rewrite !lookup_insert in Hlk.
    repeat case_decide; subst.
    + injection Hlk as <-. discriminate Htr.
    + injection Hlk as <-. discriminate Htr.
    + injection Hlk as <-. split; [reflexivity |]. split; [reflexivity |].
      split; [discriminate |]. eexists. split; [apply lookup_insert_eq | reflexivity].
    + destruct (Hb h t Hlk Htr) as (_ & _ & _ & t' & Hc' & Hcc).
      destruct (Hn _ _ Hc') as [_ Hnc]. congruence.
  - injection Hs as <-. pose proof (cancel_empty s Hl) as He.
    unfold order_inv. rewrite He. split; [exact Ha |].
    intros h t H0. rewrite lookup_empty in H0. discriminate H0.
  - destruct (timers s !! h) as [t |] eqn:Ht; [| discriminate].
    injection Hs as <-.
    set (s0 := if repeat t then s else withTimers (delete h (timers s)) (next_timer s) s).
    assert ((∀ h' t', timers s0 !! h' = Some t' → timers s !! h' = Some t')
            ∧ (∀ h', h' ≠ h → timers s0 !! h' = timers s !! h')
            ∧ status s0 = status s ∧ resultUrl s0 = resultUrl s)
      as (Hsub & Hoth & Es0 & Eu0).
    { unfold s0. destruct (repeat t); cbn; split_and!; auto.
      - intros h' t'. rewrite lookup_delete. case_decide; [discriminate | auto].
      - intros h' Hne. now apply lookup_delete_ne. }
    assert (is_completion t = false →
            ∀ h1 t1, timers s0 !! h1 = Some t1 → is_toRunning t1 = true →
                     delay t1 = 900%Z ∧ repeat t1 = false ∧ status s ≠ Some "COMPLETED"
                     ∧ S (S h1) ≠ h
                     ∧ ∃ t', timers s0 !! S (S h1) = Some t' ∧ is_completion t' = true)
      as Hkeep.
    { intros Hnc h1 t1 H1 Htr1.
      destruct (Hb h1 t1 (Hsub h1 t1 H1) Htr1) as (Hd & Hr & Hst & t' & Hc' & Hcc).
      assert (S (S h1) ≠ h) as Hne by (intros <-; congruence).
      split_and!; auto. exists t'. split; [| exact Hcc]. now rewrite Hoth. }
    unfold run_callback. destruct (callback t) as [| k | f r |] eqn:Hcb.
    + assert (is_toRunning t = true) as Htr by (unfold is_toRunning; now rewrite Hcb).
      assert (is_completion t = false) as Hnc by (unfold is_completion; now rewrite Hcb).
      destruct (Hb h t Ht Htr) as (_ & _ & Hst & _).
      unfold order_inv. cbn [status resultUrl timers setStatus]. rewrite Eu0. split.
      * split; [intros H; apply Ha in H; contradiction | discriminate].
      * intros h1 t1 H1 Htr1.
        destruct (Hkeep Hnc h1 t1 H1 Htr1) as (Hd & Hr & _ & _ & Hex).
        split; [exact Hd |]. split; [exact Hr |]. split; [discriminate | exact Hex].
    + assert (is_completion t = false) as Hnc by (unfold is_completion; now rewrite Hcb).
      unfold order_inv. cbn [status resultUrl timers setProgress withTimers].
      rewrite Es0, Eu0. split; [exact Ha |].
      intros h1 t1 H1 Htr1. rewrite lookup_insert in H1. case_decide as Hh.
      * injection H1 as <-. discriminate Htr1.
      * destruct (Hkeep Hnc h1 t1 H1 Htr1) as (Hd & Hr & Hst & Hne & t' & Hc' & Hcc).
        split; [exact Hd |]. split; [exact Hr |]. split; [exact Hst |].
        exists t'. split; [| exact Hcc]. rewrite lookup_insert_ne by congruence. exact Hc'.
    + assert (t = {| delay := totalMs; repeat := false; callback := CbToComplete f r |})
        as Hshape by exact (Hc h t f r Ht Hcb).
      assert (∀ h1 t1, timers s !! h1 = Some t1 → is_toRunning t1 = true → False) as Hnone.
      { intros h1 t1 H1 Htr1.
        destruct (Hb h1 t1 H1 Htr1) as (Hd & Hr & _ & t' & Hc' & Hcc).
        assert (S (S h1) = h) as Hh.
        { apply (Ho (S (S h1)) h t' t Hc' Ht Hcc). unfold is_completion. now rewrite Hcb. }
        assert (h1 < h) as Hlt by lia.
        pose proof (in_order_spec h blob s t Hord Ht h1 t1 H1 Hlt Hr) as Hlate.
        rewrite Hd, Hshape in Hlate. cbn in Hlate. unfold totalMs in Hlate. lia. }
      destruct (complete_status f r blob s0) as [Es Eu].
      destruct (complete_fields f r blob s0) as (Ft & _).
      unfold order_inv. rewrite Es, Eu, Ft. split; [split; reflexivity |].
      intros h1 t1 H1 Htr1. rewrite lookup_insert in H1. case_decide as Hh.
      * injection H1 as <-. discriminate Htr1.
      * apply lookup_clearAll in H1 as [H1 _].
        destruct (Hnone h1 t1 (Hsub h1 t1 H1) Htr1).
    + assert (is_completion t = false) as Hnc by (unfold is_completion; now rewrite Hcb).
      unfold order_inv. cbn [status resultUrl timers setShowConfetti].
      rewrite Es0, Eu0. split; [exact Ha |].
      intros h1 t1 H1 Htr1.
      destruct (Hkeep Hnc h1 t1 H1 Htr1) as (Hd & Hr & Hst & _ & Hex). auto.
Qed.

(** In every state the page reaches with timers firing in the browser's
    order, the result location is set exactly when the status is
    COMPLETED. *)
Lemma page_reachable_order_inv (s : State) : page_reachable s → order_inv s.
Proof.
  intros [evs H].
  enough (sim_inv s ∧ job_inv s ∧ order_inv s) as (_ & _ & Hi) by exact Hi.
  assert (sim_inv init ∧ job_inv init ∧ order_inv init) as Hinit.
  { split; [apply ui_reachable_sim_inv; now exists [] |].
    split; [exact job_inv_init | exact order_inv_init]. }
  revert H Hinit. generalize init. induction evs as [| e evs IH]; intros s0; cbn.
  - now intros [= <-].
  - destruct (offered e s0) eqn:Hoff; [| discriminate].
    destruct (in_order e s0) eqn:Hord; [| discriminate]. cbn.
    destruct (step e s0) as [s1 |] eqn:Hs; [| discriminate].
    intros H (Hsim & Hjob & Hinv). apply (IH s1 H).
    assert (is_start e = true → busy s0 = false) as Hgate.
    { intros He. destruct e; try discriminate He. cbn in Hoff.
      apply andb_true_iff in Hoff as [Hb _]. now apply negb_true_iff in Hb. }
    split; [exact (step_sim_inv e s0 s1 Hsim Hgate Hs) |].
    split; [exact (step_job_inv e s0 s1 Hsim Hjob Hgate Hs) |].
    exact (step_order_inv e s0 s1 Hjob Hinv Hoff Hord Hs).
Qed.

End SimOrderFacts.

(** ** COMPLETED and the result location, across both drivers *)

(** [getJob] stores a parsed reply as it comes: the status is the reply's
    status; the result location is the reply's [result_url] when that is
    not empty, and is left as it was otherwise. *)
Lemma live_reply_is_stored
    (s : Live.State) (p : nat) (c : Live.Caller) (id : option string) (d : Live.Json) :
  Live.awaiting s !! p = Some (Live.AwGetJson c id) →
  ∃ s', Live.step (Live.Settle p (Live.Parsed d)) s = Some s'
        ∧ Live.status s' = Live.j_status d
        ∧ Live.resultUrl s' = (if truthy (Live.result_url d)
                               then Live.result_url d else Live.resultUrl s).
Proof.
  intros Hk. rewrite (LiveFacts.settle_eq _ _ _ _ Hk).
  unfold Live.resume, Live.after_getJob, Live.clearInterval.
  eexists. split; [reflexivity |].
  destruct (Live.pollRef s) eqn:Hp, (truthy (Live.result_url d)), c; cbn;
    try destruct (bool_decide _); cbn; rewrite ?Hp; split; reflexivity.
Qed.

(** C1 (as amended): in the simulated driver, in every state reached
    through the controls the page offers with timers firing in the
    browser's order, the result location is non-empty if and only if the
    status is COMPLETED; the firing of the completion timer sets
    COMPLETED and a non-empty result location together, and no other
    step newly sets either.  In the live driver getJob stores each
    parsed reply to a status query: the status becomes the reply's
    status, and the result location becomes the reply's result_url when
    that is non-empty and stays as it was otherwise; so after such a
    reply COMPLETED holds together with a non-empty result location
    exactly when the reply reports COMPLETED and either carries a
    non-empty result_url or a non-empty location was already held.  The
    status becomes COMPLETED only through such a reply that reports
    COMPLETED, and the result location becomes non-empty only through a
    reply that carries a non-empty result_url. *)
Theorem C1_completed_and_result_location :
  (∀ s, SimOrder.page_reachable s →
        (truthy (Sim.resultUrl s) = true ↔ Sim.status s = Some "COMPLETED"))
  ∧ (∀ s h blob t f r,
       Sim.timers s !! h = Some t → Sim.callback t = Sim.CbToComplete f r →
       ∃ s', Sim.step (Sim.Fire h blob) s = Some s'
             ∧ Sim.status s' = Some "COMPLETED"
             ∧ Sim.resultUrl s' = Some ("blob:" +:+ blob)
             ∧ truthy (Sim.resultUrl s') = true)
  ∧ (∀ e s s', Sim.step e s = Some s' →
       (Sim.status s' = Some "COMPLETED" ∧ Sim.status s' ≠ Sim.status s)
       ∨ (truthy (Sim.resultUrl s') = true ∧ Sim.resultUrl s' ≠ Sim.resultUrl s) →
       ∃ h blob t f r, e = Sim.Fire h blob ∧ Sim.timers s !! h = Some t
                       ∧ Sim.callback t = Sim.CbToComplete f r)
  ∧ (∀ s p c id d, Live.awaiting s !! p = Some (Live.AwGetJson c id) →
       ∃ s', Live.step (Live.Settle p (Live.Parsed d)) s = Some s'
             ∧ Live.status s' = Live.j_status d
             ∧ Live.resultUrl s' = (if truthy (Live.result_url d)
                                    then Live.result_url d else Live.resultUrl s)
             ∧ ((Live.status s' = Some "COMPLETED" ∧ truthy (Live.resultUrl s') = true)
                ↔ (Live.j_status d = Some "COMPLETED"
                   ∧ (truthy (Live.result_url d) = true
                      ∨ truthy (Live.resultUrl s) = true))))
  ∧ (∀ e s s', Live.step e s = Some s' →
       (Live.status s' = Some "COMPLETED" → Live.status s' ≠ Live.status s →
        ∃ p d, e = Live.Settle p (Live.Parsed d)
               ∧ Live.j_status d = Some "COMPLETED"
               ∧ Live.resultUrl s' = if truthy (Live.result_url d)
                                     then Live.result_url d else Live.resultUrl s)
       ∧ (truthy (Live.resultUrl s') = true → Live.resultUrl s' ≠ Live.resultUrl s →
          ∃ p d, e = Live.Settle p (Live.Parsed d)
                 ∧ Live.result_url d = Live.resultUrl s'
                 ∧ Live.status s' = Live.j_status d)).
Proof.
  split; [intros s Hr; exact (proj1 (SimOrderFacts.page_reachable_order_inv s Hr)) |].
  split; [exact SimOrderFacts.completion_sets_both |].
  split; [exact SimOrderFacts.set_only_by_completion |].
  split; [| exact LiveFacts.live_completed_by_reply].
  intros s p c id d Hk.
  destruct (live_reply_is_stored s p c id d Hk) as (s' & Hs & Est & Eu).
  exists s'. split; [exact Hs |]. split; [exact Est |]. split; [exact Eu |].
  rewrite Est, Eu. destruct (truthy (Live.result_url d)) eqn:Ht.
  - rewrite Ht. tauto.
  - split; [intros [H1 H2]; auto |].
    intros [H1 [H2 | H2]]; [discriminate H2 | auto].
Qed.

Lemma C1_completed_and_result_location_witness :
  SimOrder.page_reachable SimRuns.completed
  ∧ Sim.status SimRuns.completed = Some "COMPLETED"
  ∧ truthy (Sim.resultUrl SimRuns.completed) = true
  ∧ Live.awaiting LiveRuns.at_reply !! 6 = Some (Live.AwGetJson Live.FromTick (Some "j-1"))
  ∧ ∃ s', Live.step (Live.Settle 6 (Live.Parsed LiveRuns.completed_with_url))
                    LiveRuns.at_reply = Some s'
          ∧ Live.status s' = Some "COMPLETED"
          ∧ truthy (Live.resultUrl s') = true.
Proof.
  assert (SimOrder.page_reachable SimRuns.completed) as Hr.
  { exists SimOrder.to_completion. vm_compute. reflexivity. }
  assert (Live.awaiting LiveRuns.at_reply !! 6
          = Some (Live.AwGetJson Live.FromTick (Some "j-1"))) as Hk
    by (vm_compute; reflexivity).
  destruct C1_completed_and_result_location as (HS & _ & _ & HL & _).
  split; [exact Hr |].
  split; [vm_compute; reflexivity |].
  split; [apply (proj2 (HS _ Hr)); vm_compute; reflexivity |].
  split; [exact Hk |].
  destruct (HL _ _ _ _ LiveRuns.completed_with_url Hk) as (s' & Hs & Est & _ & Hiff).
  exists s'. split; [exact Hs |].
  apply (proj2 Hiff). split; [reflexivity |]. left. reflexivity.
Defined.

(** C1 (as stated) fails in the live driver.  A reply that reports
    COMPLETED without a result_url sets the status to COMPLETED while the
    result location is empty; a reply that reports RUNNING with a
    result_url sets the result location while the status is not
    COMPLETED; and a second click on start after a completed job clears
    the result location while the status still reads COMPLETED. *)
Lemma C1_completed_with_empty_result_location :
  Live.run_ui LiveRuns.until_reply Live.init = Some LiveRuns.at_reply
  ∧ Live.step (Live.Settle 6 (Live.Parsed LiveRuns.completed_without_url)) LiveRuns.at_reply
    = Some LiveRuns.after_completed_without_url
  ∧ Live.status LiveRuns.after_completed_without_url = Some "COMPLETED"
  ∧ Live.resultUrl LiveRuns.after_completed_without_url = None
  ∧ Live.step (Live.Settle 6 (Live.Parsed LiveRuns.running_with_url)) LiveRuns.at_reply
    = Some LiveRuns.after_running_with_url
  ∧ Live.status LiveRuns.after_running_with_url = Some "RUNNING"
  ∧ truthy (Live.resultUrl LiveRuns.after_running_with_url) = true
  ∧ Live.run_ui (LiveRuns.until_done ++ [Live.Start]) Live.init = Some LiveRuns.restarted
  ∧ Live.status LiveRuns.restarted = Some "COMPLETED"
  ∧ Live.resultUrl LiveRuns.restarted = None.
Proof.
  split; [vm_compute; reflexivity |]. split; [vm_compute; reflexivity |].
  split; [vm_compute; reflexivity |]. split; [vm_compute; reflexivity |].
  split; [vm_compute; reflexivity |]. split; [vm_compute; reflexivity |].
  split; [vm_compute; reflexivity |]. split; [vm_compute; reflexivity |].
  split; vm_compute; reflexivity.
Qed.
